(** * The comment service of the YouTube MCP server

    A shallow embedding of [src/services/comment.ts] (class
    [CommentService]) and of the projection helper of
    [tests/comments.test.ts], with the properties of the response
    projection and of the two service operations.

    The service handles values typed [any]: they are modelled as an
    inductive type of JavaScript values, exceptions as an error monad,
    the service object and the upstream requests it issues by explicit
    state passing with a trace of events. *)

From stdpp Require Import base numbers list strings pretty.

Set Warnings "-register-all".

Open Scope string_scope.
Open Scope list_scope.

(** ** JavaScript values and the operators the service applies to them *)

Module Js.

(** Numbers: the integers and [NaN]. What the code asks of a number is
    its truthiness and its conversion to a string; other doubles are
    truthy like a non-zero integer. *)
Inductive number :=
| NaN
| Int (z : Z).

(** An object is the list of its own properties in insertion order. *)
Inductive value :=
| VUndefined
| VNull
| VBool (b : bool)
| VNum (n : number)
| VStr (s : string)
| VArr (elems : list value)
| VObj (fields : list (string * value)).

(** What a [throw] carries: an instance of [Error] with its message, or
    any other value. *)
Inductive thrown :=
| JsError (message : string)
| JsThrown (v : value).

(** The outcome of an expression, and of an [async] function: a value
    (the promise is fulfilled) or an exception (it is rejected). *)
Inductive result (A : Type) :=
| Ok (a : A)
| Throw (e : thrown).
Arguments Ok {A} a.
Arguments Throw {A} e.

#[global] Instance result_ret : MRet result := fun A a => Ok a.
#[global] Instance result_bind : MBind result := fun A B f m =>
  match m with
  | Ok a => f a
  | Throw e => Throw e
  end.
#[global] Instance result_fmap : FMap result := fun A B f m =>
  match m with
  | Ok a => Ok (f a)
  | Throw e => Throw e
  end.

Definition nullish (v : value) : bool :=
  match v with
  | VUndefined | VNull => true
  | _ => false
  end.

Definition is_object (v : value) : bool :=
  match v with
  | VObj _ => true
  | _ => false
  end.

(** [Object.keys(v)] of an object. *)
Definition Object_keys (v : value) : list string :=
  match v with
  | VObj fields => fields.*1
  | _ => []
  end.

(** ToBoolean. *)
Definition truthy (v : value) : bool :=
  match v with
  | VUndefined | VNull => false
  | VBool b => b
  | VNum NaN => false
  | VNum (Int z) => negb (z =? 0)%Z
  | VStr s => negb (String.eqb s "")
  | VArr _ | VObj _ => true
  end.

(** [a || b] *)
Definition or_ (a b : value) : value := if truthy a then a else b.

(** The own property [k] of an object, [undefined] when it has none. *)
Fixpoint own (k : string) (fields : list (string * value)) : value :=
  match fields with
  | [] => VUndefined
  | (k', v) :: rest => if String.eqb k k' then v else own k rest
  end.

(** Reading property [k] of a value that is neither [null] nor
    [undefined]. Only own properties are modelled: the names the service
    reads ([id], [snippet], [topLevelComment], [textDisplay], [parentId],
    [text], [data], [items], [pageInfo]) are no members of the built-in
    prototypes, so primitives and arrays answer [undefined]. *)
Definition member (v : value) (k : string) : value :=
  match v with
  | VObj fields => own k fields
  | _ => VUndefined
  end.

(** The [TypeError] of V8 (Node.js) for a property read on [null] or
    [undefined]. *)
Definition nullish_name (v : value) : string :=
  match v with
  | VNull => "null"
  | _ => "undefined"
  end.

Definition TypeError_read (v : value) (k : string) : thrown :=
  JsError ("Cannot read properties of " +:+ nullish_name v +:+
           " (reading '" +:+ k +:+ "')").

(** [v.k] *)
Definition get_prop (v : value) (k : string) : result value :=
  if nullish v then Throw (TypeError_read v k) else Ok (member v k).

(** [v?.k] *)
Definition get_opt (v : value) (k : string) : value :=
  if nullish v then VUndefined else member v k.

(** [String(v)]; integers print in decimal (as JavaScript prints them
    below 1e21). An array joins its elements with commas, [null] and
    [undefined] elements printing as the empty string. *)
Fixpoint String_ (v : value) : string :=
  match v with
  | VUndefined => "undefined"
  | VNull => "null"
  | VBool true => "true"
  | VBool false => "false"
  | VNum NaN => "NaN"
  | VNum (Int z) => pretty z
  | VStr s => s
  | VArr elems =>
      (fix join (xs : list value) : string :=
         match xs with
         | [] => ""
         | x :: rest =>
             (if nullish x then "" else String_ x) +:+
             match rest with
             | [] => ""
             | _ :: _ => "," +:+ join rest
             end
         end) elems
  | VObj _ => "[object Object]"
  end.

(** [error instanceof Error ? error.message : String(error)] *)
Definition error_message (error : thrown) : string :=
  match error with
  | JsError message => message
  | JsThrown v => String_ v
  end.

(** [arr.map(f)], where [name] is the text of the expression [arr] (V8
    quotes it when [map] is no function). The callback is run on the
    elements from left to right and the first exception ends the call. *)
Definition Array_map (name : string) (f : value → result value)
    (arr : value) : result value :=
  match arr with
  | VArr elems => VArr <$> mapM f elems
  | VUndefined | VNull => Throw (TypeError_read arr "map")
  | _ => Throw (JsError (name +:+ ".map is not a function"))
  end.

(** A default value in a destructured parameter: it applies when the
    property is absent or [undefined]. *)
Definition default_to (d v : value) : value :=
  match v with
  | VUndefined => d
  | _ => v
  end.

End Js.

(** ** [src/services/comment.ts] *)

Module Comment.
Import Js.

(** The handle [google.youtube({ version, auth })] returns. *)
Record client := { version : string; auth : string }.

(** The two private fields of [class CommentService]. *)
Record CommentService := {
  youtube : option client;
  initialized : bool
}.

(** [new CommentService()]: the constructor body is empty, [youtube] is
    left undefined and [initialized] is [false]. *)
Definition new_CommentService : CommentService :=
  {| youtube := None; initialized := false |}.

(** The argument of [youtube.commentThreads.list]. *)
Record commentThreads_params := {
  ct_part : list string;
  ct_videoId : value;
  ct_maxResults : value;
  ct_textFormat : value;
  ct_order : string
}.

(** The argument of [youtube.comments.list]. *)
Record comments_params := {
  c_part : list string;
  c_parentId : value;
  c_maxResults : value;
  c_textFormat : value
}.

(** What a call does that the outside can see: it builds an API client,
    or sends a request through one. *)
Inductive event :=
| Constructed (c : client)
| CommentThreadsList (c : client) (p : commentThreads_params)
| CommentsList (c : client) (p : comments_params).

(** The surroundings of a call: the environment variable, and what the
    upstream API answers to a request (the awaited promise fulfils with
    a response or rejects). *)
Record world := {
  YOUTUBE_API_KEY : option string;
  commentThreads_list : client → commentThreads_params → result value;
  comments_list : client → comments_params → result value
}.

(** A method of the service: from the service object to the object
    after the call, the events of the call in order, and the outcome. *)
Definition Eff (A : Type) : Type :=
  CommentService → CommentService * list event * result A.

#[global] Instance Eff_ret : MRet Eff := fun A a this => (this, [], Ok a).

#[global] Instance Eff_bind : MBind Eff := fun A B f m this =>
  match m this with
  | (this', tr, Ok a) =>
      match f a this' with
      | (this'', tr', r) => (this'', tr ++ tr', r)
      end
  | (this', tr, Throw e) => (this', tr, Throw e)
  end.

Definition throw {A} (e : thrown) : Eff A := fun this => (this, [], Throw e).

(** An expression that neither reads nor changes the service object. *)
Definition lift {A} (r : result A) : Eff A := fun this => (this, [], r).

(** [try { body } catch (error) { handler }] *)
Definition try_catch {A} (body : Eff A) (handler : thrown → Eff A) : Eff A :=
  fun this =>
    match body this with
    | (this', tr, Ok a) => (this', tr, Ok a)
    | (this', tr, Throw error) =>
        match handler error this' with
        | (this'', tr', r) => (this'', tr ++ tr', r)
        end
    end.

(** [private initialize()] *)
Definition initialize (w : world) : Eff unit := fun this =>
  if initialized this then (this, [], Ok ())
  else
    match YOUTUBE_API_KEY w with
    | Some apiKey =>
        if negb (truthy (VStr apiKey))
        then (this, [],
              Throw (JsError "YOUTUBE_API_KEY environment variable is not set."))
        else
          let c := {| version := "v3"; auth := apiKey |} in
          ({| youtube := Some c; initialized := true |}, [Constructed c], Ok ())
    | None =>
        (this, [],
         Throw (JsError "YOUTUBE_API_KEY environment variable is not set."))
    end.

(** The callback of [extractEssentialComments]. *)
Definition essential_comment (comment : value) : result value :=
  snippet ← get_prop comment "snippet";
  let topLevelSnippet := get_opt (get_opt snippet "topLevelComment") "snippet" in
  parentId ← get_prop comment "id";
  let text := or_ (get_opt topLevelSnippet "textDisplay") (VStr "") in
  Ok (VObj [("parentId", parentId); ("text", text)]).

(** [private extractEssentialComments(comments: any[])] *)
Definition extractEssentialComments (comments : value) : result value :=
  Array_map "comments" essential_comment comments.

(** The callback of [extractEssentialReplies]. *)
Definition essential_reply (reply : value) : result value :=
  snippet ← get_prop reply "snippet";
  Ok (or_ (get_opt snippet "textDisplay") (VStr "")).

(** [private extractEssentialReplies(replies: any[])] *)
Definition extractEssentialReplies (replies : value) : result value :=
  Array_map "replies" essential_reply replies.

(** [await this.youtube.commentThreads.list(p)] *)
Definition call_commentThreads_list (w : world) (p : commentThreads_params)
    : Eff value := fun this =>
  match youtube this with
  | Some c => (this, [CommentThreadsList c p], commentThreads_list w c p)
  | None => (this, [], Throw (TypeError_read VUndefined "commentThreads"))
  end.

(** [await this.youtube.comments.list(p)] *)
Definition call_comments_list (w : world) (p : comments_params)
    : Eff value := fun this =>
  match youtube this with
  | Some c => (this, [CommentsList c p], comments_list w c p)
  | None => (this, [], Throw (TypeError_read VUndefined "comments"))
  end.

(** [interface VideoCommentsParams]; an absent property is [undefined]. *)
Record VideoCommentsParams := {
  videoId : value;
  maxResults : value;
  textFormat : value
}.

(** The parameter object of [getCommentReplies]. *)
Record CommentRepliesParams := {
  parentId : value;
  r_maxResults : value;
  r_textFormat : value
}.

(** The request of [getVideoComments]: its destructured parameter
    [{ videoId, maxResults = 20, textFormat = 'plainText' }] and the
    object literal it passes to [commentThreads.list]. *)
Definition commentThreads_request (a : VideoCommentsParams)
    : commentThreads_params :=
  let videoId := videoId a in
  let maxResults := default_to (VNum (Int 20)) (maxResults a) in
  let textFormat := default_to (VStr "plainText") (textFormat a) in
  {| ct_part := ["snippet"; "replies"];
     ct_videoId := videoId;
     ct_maxResults := maxResults;
     ct_textFormat := textFormat;
     ct_order := "relevance" |}.

(** The request of [getCommentReplies]: its destructured parameter
    [{ parentId, maxResults = 20, textFormat = 'plainText' }] and the
    object literal it passes to [comments.list]. *)
Definition comments_request (a : CommentRepliesParams) : comments_params :=
  let parentId := parentId a in
  let maxResults := default_to (VNum (Int 20)) (r_maxResults a) in
  let textFormat := default_to (VStr "plainText") (r_textFormat a) in
  {| c_part := ["snippet"];
     c_parentId := parentId;
     c_maxResults := maxResults;
     c_textFormat := textFormat |}.

(** [async getVideoComments(...)] *)
Definition getVideoComments (w : world) (a : VideoCommentsParams) : Eff value :=
  try_catch
    (initialize w ;;
     response ← call_commentThreads_list w (commentThreads_request a);
     data ← lift (get_prop response "data");
     items ← lift (get_prop data "items");
     optimizedComments ← lift (extractEssentialComments (or_ items (VArr [])));
     pageInfo ← lift (get_prop data "pageInfo");
     mret (VObj [("comments", optimizedComments); ("pageInfo", pageInfo)]))
    (fun error =>
       throw (JsError ("Failed to get comments: " +:+ error_message error))).

(** [async getCommentReplies(...)] *)
Definition getCommentReplies (w : world) (a : CommentRepliesParams) : Eff value :=
  try_catch
    (initialize w ;;
     response ← call_comments_list w (comments_request a);
     data ← lift (get_prop response "data");
     items ← lift (get_prop data "items");
     optimizedReplies ← lift (extractEssentialReplies (or_ items (VArr [])));
     mret optimizedReplies)
    (fun error =>
       throw (JsError ("Failed to get replies: " +:+ error_message error))).

(** A caller's use of one service object: a sequence of calls, each in
    the surroundings it finds. *)
Inductive call :=
| GetVideoComments (a : VideoCommentsParams)
| GetCommentReplies (a : CommentRepliesParams).

Definition run_call (w : world) (c : call) : Eff value :=
  match c with
  | GetVideoComments a => getVideoComments w a
  | GetCommentReplies a => getCommentReplies w a
  end.

(** The events of a sequence of calls on one service object. *)
Fixpoint run_calls (calls : list (world * call)) (this : CommentService)
    : CommentService * list event :=
  match calls with
  | [] => (this, [])
  | (w, c) :: rest =>
      match run_call w c this with
      | (this', tr, _) =>
          match run_calls rest this' with
          | (this'', tr') => (this'', tr ++ tr')
          end
      end
  end.

Definition is_construction (e : event) : bool :=
  match e with
  | Constructed _ => true
  | _ => false
  end.

Definition is_request (e : event) : bool :=
  match e with
  | Constructed _ => false
  | _ => true
  end.

(** How many API clients a trace builds, and the requests it sends. *)
Definition constructions (tr : list event) : nat :=
  length (List.filter is_construction tr).

Definition requests (tr : list event) : list event :=
  List.filter is_request tr.

End Comment.

(** ** The helper of [tests/comments.test.ts] *)

Module CommentsTest.
Import Js.

(** [a && b], where [b] is evaluated only when [a] is truthy. *)
Definition and_ (a : result value) (b : result value) : result value :=
  x ← a; if truthy x then b else Ok x.

(** [!a] *)
Definition not_ (a : result value) : result value :=
  x ← a; Ok (VBool (negb (truthy x))).

(** The callback of the test script's [extractEssentialComments]. *)
Definition essential_comment (comment : value) : result value :=
  already ← and_ (and_ (get_prop comment "parentId") (get_prop comment "text"))
                 (not_ (get_prop comment "snippet"));
  if truthy already then Ok comment
  else
    snippet ← get_prop comment "snippet";
    let topLevelSnippet := get_opt (get_opt snippet "topLevelComment") "snippet" in
    parentId ← get_prop comment "id";
    let text := or_ (get_opt topLevelSnippet "textDisplay") (VStr "") in
    Ok (VObj [("parentId", parentId); ("text", text)]).

(** [function extractEssentialComments(comments: any[]): any[]] *)
Definition extractEssentialComments (comments : value) : result value :=
  Array_map "comments" essential_comment comments.

End CommentsTest.

Import Js.

(** A record in the projected form: an object whose fields are exactly
    [parentId] and [text], in either order. *)
Definition projected (r : value) : Prop :=
  is_object r ∧ Object_keys r ≡ₚ ["parentId"; "text"].

(** The display text of a reply record, which the upstream schema types
    as a string that may be [null] or absent. *)
Definition display_text (reply : value) : option string :=
  match get_opt (member reply "snippet") "textDisplay" with
  | VStr s => Some s
  | _ => None
  end.

Definition text_or_absent (v : value) : bool :=
  match v with
  | VStr _ | VUndefined | VNull => true
  | _ => false
  end.

(** A reply record of the upstream API: an object whose display text,
    when it has one, is a string. *)
Definition reply_record (r : value) : Prop :=
  is_object r ∧ text_or_absent (get_opt (member r "snippet") "textDisplay").

(** ** Sample data *)

(** The records of the thread list of a video with two comments. *)
Definition two_threads : list value :=
  [VObj [("id", VStr "t1");
         ("snippet", VObj [("topLevelComment",
            VObj [("snippet", VObj [("textDisplay", VStr "first")])])])];
   VObj [("id", VStr "t2");
         ("snippet", VObj [("topLevelComment",
            VObj [("snippet", VObj [("textDisplay", VStr "second")])])])]].

(** The [n]-th comment thread of a video, and the [n]-th reply to a
    thread, as the upstream API sends them (fields the service does not
    read are left out). *)
Definition thread (n : nat) : value :=
  VObj [("kind", VStr "youtube#commentThread");
        ("id", VStr ("thread" +:+ pretty n));
        ("snippet", VObj [("topLevelComment",
           VObj [("snippet", VObj [("textDisplay", VStr ("comment " +:+ pretty n));
                                   ("likeCount", VNum (Int 3))])]);
           ("totalReplyCount", VNum (Int 0))])].

Definition reply (n : nat) : value :=
  VObj [("kind", VStr "youtube#comment");
        ("id", VStr ("abc." +:+ pretty n));
        ("snippet", VObj [("textDisplay", VStr ("reply " +:+ pretty n));
                          ("parentId", VStr "abc")])].

(** A reply whose snippet carries no text. *)
Definition silent_reply : value :=
  VObj [("id", VStr "abc.x"); ("snippet", VObj [("parentId", VStr "abc")])].

Definition page_info : value :=
  VObj [("totalResults", VNum (Int 1234)); ("resultsPerPage", VNum (Int 10))].

Definition threads_response : value :=
  VObj [("data", VObj [("items", VArr (thread <$> seq 0 10));
                       ("pageInfo", page_info)])].

Definition replies_response : value :=
  VObj [("data", VObj [("items", VArr ((reply <$> seq 0 4) ++ [silent_reply]))])].

(** A response without [items]. *)
Definition empty_response : value :=
  VObj [("data", VObj [("pageInfo", page_info)])].

(** Surroundings where the key is set and the upstream API answers. *)
Definition answering : Comment.world :=
  {| Comment.YOUTUBE_API_KEY := Some "key";
     Comment.commentThreads_list := λ _ _, Ok threads_response;
     Comment.comments_list := λ _ _, Ok replies_response |}.

(** Surroundings where the upstream API finds nothing to list. *)
Definition answering_empty : Comment.world :=
  {| Comment.YOUTUBE_API_KEY := Some "key";
     Comment.commentThreads_list := λ _ _, Ok empty_response;
     Comment.comments_list := λ _ _, Ok empty_response |}.

(** Surroundings where the upstream API rejects every request. *)
Definition rejecting : Comment.world :=
  {| Comment.YOUTUBE_API_KEY := Some "key";
     Comment.commentThreads_list := λ _ _, Throw (JsError "quotaExceeded");
     Comment.comments_list := λ _ _, Throw (JsError "quotaExceeded") |}.

(** Surroundings where the key is not set. *)
Definition without_key : Comment.world :=
  {| Comment.YOUTUBE_API_KEY := None;
     Comment.commentThreads_list := λ _ _, Ok threads_response;
     Comment.comments_list := λ _ _, Ok replies_response |}.

Definition the_client : Comment.client :=
  {| Comment.version := "v3"; Comment.auth := "key" |}.

Definition ready_service : Comment.CommentService :=
  {| Comment.youtube := Some the_client; Comment.initialized := true |}.

Definition video_args : Comment.VideoCommentsParams :=
  {| Comment.videoId := VStr "dQw4w9WgXcQ";
     Comment.maxResults := VNum (Int 10);
     Comment.textFormat := VUndefined |}.

Definition replies_args : Comment.CommentRepliesParams :=
  {| Comment.parentId := VStr "abc";
     Comment.r_maxResults := VNum (Int 5);
     Comment.r_textFormat := VUndefined |}.

(** A thread without its [snippet], as a deleted comment may come. *)
Definition bare_thread : value := VObj [("id", VStr "t3")].

(** Records in the projected form. *)
Definition projected_hello : value :=
  VObj [("parentId", VStr "abc"); ("text", VStr "hello")].

Definition projected_empty : value :=
  VObj [("parentId", VStr "abc"); ("text", VStr "")].

(** ** The operations called on any argument *)

(** The call [getVideoComments(arg)] for whatever the caller passes.
    The object pattern of the parameter list is matched before the body,
    outside its [try]: on [null] or [undefined] it throws the engine's
    [TypeError] (its wording, [destructure_message arg], is the
    engine's); on anything else it reads the three properties, an
    absent one being [undefined]. *)
Definition getVideoComments_call (destructure_message : value → string)
    (w : Comment.world) (arg : value) : Comment.Eff value :=
  if nullish arg
  then Comment.throw (JsError (destructure_message arg))
  else Comment.getVideoComments w
         {| Comment.videoId := member arg "videoId";
            Comment.maxResults := member arg "maxResults";
            Comment.textFormat := member arg "textFormat" |}.

(** The call [getCommentReplies(arg)], likewise. *)
Definition getCommentReplies_call (destructure_message : value → string)
    (w : Comment.world) (arg : value) : Comment.Eff value :=
  if nullish arg
  then Comment.throw (JsError (destructure_message arg))
  else Comment.getCommentReplies w
         {| Comment.parentId := member arg "parentId";
            Comment.r_maxResults := member arg "maxResults";
            Comment.r_textFormat := member arg "textFormat" |}.

(** ** The other functions of [tests/comments.test.ts] *)

Module TestScript.
Import Js.

(** The character class [[a-zA-Z0-9_-]]. *)
Definition id_char (c : Ascii.ascii) : bool :=
  let n := Ascii.nat_of_ascii c in
  (97 <=? n)%nat && (n <=? 122)%nat ||
  (65 <=? n)%nat && (n <=? 90)%nat ||
  (48 <=? n)%nat && (n <=? 57)%nat ||
  (n =? 95)%nat || (n =? 45)%nat.

(** The group [([a-zA-Z0-9_-]{n})] at the head of [s]: the [n]
    characters it takes and what follows them. *)
Fixpoint id_chars (n : nat) (s : string) : option (string * string) :=
  match n with
  | O => Some ("", s)
  | S n' =>
      match s with
      | String c s' =>
          if id_char c
          then match id_chars n' s' with
               | Some (v, rest) => Some (String c v, rest)
               | None => None
               end
          else None
      | EmptyString => None
      end
  end.

(** A literal text at the head of [s]: what follows it. *)
Fixpoint literal (p s : string) : option string :=
  match p with
  | EmptyString => Some s
  | String a p' =>
      match s with
      | String b s' => if Ascii.eqb a b then literal p' s' else None
      | EmptyString => None
      end
  end.

(** One alternative of the first pattern, then its group, at the head
    of [s]. *)
Definition alternative (p s : string) : option string :=
  match literal p s with
  | Some rest =>
      match id_chars 11 rest with
      | Some (v, _) => Some v
      | None => None
      end
  | None => None
  end.

(** [(?:youtube\.com\/watch\?v=|youtu\.be\/|youtube\.com\/embed\/)([a-zA-Z0-9_-]{11})]
    at the head of [s]: the alternatives are tried in their order. *)
Definition url_pattern_here (s : string) : option string :=
  match alternative "youtube.com/watch?v=" s with
  | Some v => Some v
  | None =>
      match alternative "youtu.be/" s with
      | Some v => Some v
      | None => alternative "youtube.com/embed/" s
      end
  end.

(** [url.match] of the first pattern: group 1 of the leftmost match. *)
Fixpoint match_url_pattern (s : string) : option string :=
  match url_pattern_here s with
  | Some v => Some v
  | None =>
      match s with
      | String _ s' => match_url_pattern s'
      | EmptyString => None
      end
  end.

(** [url.match(/^([a-zA-Z0-9_-]{11})$/)]: group 1 when the whole of [s]
    is the group. *)
Definition match_id_pattern (s : string) : option string :=
  match id_chars 11 s with
  | Some (v, EmptyString) => Some v
  | _ => None
  end.

Definition patterns : list (string → option string) :=
  [match_url_pattern; match_id_pattern].

Definition nl : string := String (Ascii.ascii_of_nat 10) EmptyString.

Definition invalid_url_message : string :=
  "Invalid YouTube URL or video ID. Please provide a valid URL like:" +:+ nl +:+
  "  - https://www.youtube.com/watch?v=dQw4w9WgXcQ" +:+ nl +:+
  "  - https://youtu.be/dQw4w9WgXcQ" +:+ nl +:+
  "  - dQw4w9WgXcQ".

(** The loop [for (const pattern of patterns)] with its test
    [match && match[1]]. *)
Fixpoint first_match (ps : list (string → option string)) (url : string)
    : option string :=
  match ps with
  | [] => None
  | pattern :: ps' =>
      match pattern url with
      | Some group1 =>
          if truthy (VStr group1) then Some group1 else first_match ps' url
      | None => first_match ps' url
      end
  end.

(** [function extractVideoId(url: string): string] *)
Definition extractVideoId (url : string) : result string :=
  match first_match patterns url with
  | Some v => Ok v
  | None => Throw (JsError invalid_url_message)
  end.

(** [s.repeat(n)] *)
Fixpoint repeat_string (s : string) (n : nat) : string :=
  match n with
  | O => ""
  | S n' => s +:+ repeat_string s n'
  end.

(** The template of an optimized comment. *)
Definition optimized_block (index parentId text : value) : string :=
  nl +:+ repeat_string "-" 80 +:+ nl +:+
  "Comment " +:+ String_ index +:+ ":" +:+ nl +:+
  "Parent ID: " +:+ String_ parentId +:+ nl +:+
  repeat_string "-" 80 +:+ nl +:+
  String_ text +:+ nl.

(** The template of a comment of the full API response. *)
Definition full_block (index authorName likes replyCount text : value)
    : string :=
  nl +:+ repeat_string "-" 80 +:+ nl +:+
  "Comment " +:+ String_ index +:+ ":" +:+ nl +:+
  "Author: " +:+ String_ authorName +:+ nl +:+
  "Likes: " +:+ String_ likes +:+ " | Replies: " +:+ String_ replyCount +:+ nl +:+
  repeat_string "-" 80 +:+ nl +:+
  String_ text +:+ nl.

(** [function formatComment(comment: any, index: number): string] *)
Definition formatComment (comment index : value) : result string :=
  optimized ← CommentsTest.and_ (get_prop comment "parentId")
                                (get_prop comment "text");
  if truthy optimized
  then Ok (optimized_block index (member comment "parentId")
             (member comment "text"))
  else
    let snippet :=
      get_opt (get_opt (member comment "snippet") "topLevelComment") "snippet" in
    if negb (truthy snippet) then Ok ""
    else
      let authorName := or_ (member snippet "authorDisplayName") (VStr "Unknown") in
      let text := or_ (member snippet "textDisplay") (VStr "No text") in
      let likes := or_ (member snippet "likeCount") (VNum (Int 0)) in
      let replyCount :=
        or_ (get_opt (member comment "snippet") "totalReplyCount") (VNum (Int 0)) in
      Ok (full_block index authorName likes replyCount text).

End TestScript.

(** ** [class ThumbnailManager] *)

Module Thumbnail.
Import Js.

(** What the code passes to the 2D context: plain values, the gradient
    it made, the image it loaded. *)
Inductive arg :=
| AVal (v : value)
| AGradient
| AImage.

Definition num (z : Z) : arg := AVal (VNum (Int z)).
Definition str (s : string) : arg := AVal (VStr s).

(** What the code does to the context [ctx] and to the gradient. *)
Inductive ctx_op :=
| Assign (prop : string) (v : arg)
| Invoke (method : string) (args : list arg)
| AddColorStop (offset : arg) (color : arg).

(** [case 'name':] of a [switch (style)]: strict equality with the
    string. *)
Definition style_is (style : value) (name : string) : bool :=
  match style with
  | VStr s => String.eqb s name
  | _ => false
  end.

(** [private getStyleBackground(style: string): string] *)
Definition getStyleBackground (style : value) : string :=
  if style_is style "gaming" then "#1a1a1a"
  else if style_is style "vlog" then "#f5f5f5"
  else if style_is style "tutorial" then "#ffffff"
  else if style_is style "news" then "#cc0000"
  else "#ffffff".

(** [private addGamingEffects(ctx)] *)
Definition addGamingEffects : list ctx_op :=
  [Assign "shadowColor" (str "#00ff00");
   Assign "shadowBlur" (num 20);
   Assign "fillStyle" (str "#00ff00");
   Invoke "fillRect" [num 0; num 680; num 1280; num 40]].

(** [private addVlogEffects(ctx)] *)
Definition addVlogEffects : list ctx_op :=
  [Invoke "createLinearGradient" [num 0; num 0; num 1280; num 720];
   AddColorStop (num 0) (str "rgba(255,255,255,0.1)");
   AddColorStop (num 1) (str "rgba(255,255,255,0.3)");
   Assign "fillStyle" AGradient;
   Invoke "fillRect" [num 0; num 0; num 1280; num 720]].

(** [private addTutorialEffects(ctx)] *)
Definition addTutorialEffects : list ctx_op :=
  [Assign "fillStyle" (str "#e0e0e0");
   Invoke "fillRect" [num 50; num 50; num 100; num 100];
   Invoke "fillRect" [num 1130; num 50; num 100; num 100]].

(** [private addNewsEffects(ctx)] *)
Definition addNewsEffects : list ctx_op :=
  [Assign "fillStyle" (str "#cc0000");
   Invoke "fillRect" [num 0; num 0; num 1280; num 80];
   Assign "fillStyle" (str "#ffffff");
   Assign "font" (str "bold 40px Arial");
   Invoke "fillText" [str "BREAKING"; num 20; num 55]].

(** [private async applyStyleEffects(ctx, style)] *)
Definition applyStyleEffects (style : value) : list ctx_op :=
  if style_is style "gaming" then addGamingEffects
  else if style_is style "vlog" then addVlogEffects
  else if style_is style "tutorial" then addTutorialEffects
  else if style_is style "news" then addNewsEffects
  else [].

(** [private addGamingText(ctx, text)] *)
Definition addGamingText (text : value) : list ctx_op :=
  [Assign "font" (str "bold 80px Arial");
   Assign "strokeStyle" (str "#00ff00");
   Assign "lineWidth" (num 4);
   Invoke "strokeText" [AVal text; num 50; num 650];
   Assign "fillStyle" (str "#ffffff");
   Invoke "fillText" [AVal text; num 50; num 650]].

(** [private addVlogText(ctx, text)] *)
Definition addVlogText (text : value) : list ctx_op :=
  [Assign "font" (str "70px Arial");
   Assign "fillStyle" (str "#000000");
   Invoke "fillText" [AVal text; num 50; num 650]].

(** [private addTutorialText(ctx, text)] *)
Definition addTutorialText (text : value) : list ctx_op :=
  [Assign "font" (str "bold 60px Arial");
   Assign "fillStyle" (str "#333333");
   Invoke "fillText" [AVal text; num 50; num 650]].

(** [private addNewsText(ctx, text)] *)
Definition addNewsText (text : value) : list ctx_op :=
  [Assign "font" (str "bold 65px Arial");
   Assign "fillStyle" (str "#ffffff");
   Invoke "fillText" [AVal text; num 50; num 150]].

(** [private addStyledText(ctx, text, style)] *)
Definition addStyledText (text style : value) : list ctx_op :=
  Assign "shadowBlur" (num 0) ::
  (if style_is style "gaming" then addGamingText text
   else if style_is style "vlog" then addVlogText text
   else if style_is style "tutorial" then addTutorialText text
   else if style_is style "news" then addNewsText text
   else []).

(** What [generateThumbnail] does that the outside can see. *)
Inductive event :=
| CreateCanvas (width height : Z)
| GetContext (kind : string)
| LoadImage (url : value)
| Ctx (op : ctx_op)
| Mkdir (dir : string) (recursive : bool)
| ToBuffer (mime : string)
| WriteFile (path : string).

(** The surroundings of a call: the image loader of the canvas library,
    and Node's [process.cwd], [path.join], [fs.mkdir], [Date.now] and
    [fs.writeFile]. *)
Record world := {
  loadImage : value → result unit;
  cwd : string;
  path_join : string → string → string;
  mkdir : string → result unit;
  now : Z;
  writeFile : string → result unit
}.

(** A run: the events in order, and the outcome. *)
Definition Run (A : Type) : Type := list event * result A.

#[global] Instance Run_ret : MRet Run := fun A a => ([], Ok a).

#[global] Instance Run_bind : MBind Run := fun A B f m =>
  match m with
  | (tr, Ok a) =>
      match f a with
      | (tr', r) => (tr ++ tr', r)
      end
  | (tr, Throw e) => (tr, Throw e)
  end.

Definition emit (evs : list event) : Run unit := (evs, Ok ()).

Definition await {A} (ev : event) (r : result A) : Run A := ([ev], r).

Definition try_catch {A} (body : Run A) (handler : thrown → Run A) : Run A :=
  match body with
  | (tr, Ok a) => (tr, Ok a)
  | (tr, Throw error) =>
      match handler error with
      | (tr', r) => (tr ++ tr', r)
      end
  end.

(** [error.message] as the template of the [catch] reads it: the
    message of an [Error], the property [message] of any other thrown
    value, and a [TypeError] of its own on [null] or [undefined]. *)
Definition message_of (error : thrown) : result string :=
  match error with
  | JsError message => Ok message
  | JsThrown v => String_ <$> get_prop v "message"
  end.

(** The parameter object of [generateThumbnail]. *)
Record GenerateParams := {
  title : value;
  imageUrl : value;
  style : value
}.

(** [async generateThumbnail({ title, imageUrl, style = 'vlog' })] *)
Definition generateThumbnail (w : world) (a : GenerateParams) : Run string :=
  let title := title a in
  let imageUrl := imageUrl a in
  let style := default_to (VStr "vlog") (style a) in
  try_catch
    (emit [CreateCanvas 1280 720; GetContext "2d"] ;;
     (if truthy imageUrl
      then await (LoadImage imageUrl) (loadImage w imageUrl) ;;
           emit [Ctx (Invoke "drawImage"
                        [AImage; num 0; num 0; num 1280; num 720])]
      else emit [Ctx (Assign "fillStyle" (str (getStyleBackground style)));
                 Ctx (Invoke "fillRect" [num 0; num 0; num 1280; num 720])]) ;;
     emit (Ctx <$> applyStyleEffects style) ;;
     emit (Ctx <$> addStyledText title style) ;;
     let outputDir := path_join w (cwd w) "thumbnails" in
     await (Mkdir outputDir true) (mkdir w outputDir) ;;
     let outputPath :=
       path_join w outputDir ("thumbnail-" +:+ pretty (now w) +:+ ".png") in
     emit [ToBuffer "image/png"] ;;
     await (WriteFile outputPath) (writeFile w outputPath) ;;
     mret outputPath)
    (λ error,
       match message_of error with
       | Ok m => ([], Throw (JsError ("Failed to generate thumbnail: " +:+ m)))
       | Throw e => ([], Throw e)
       end).

(** The events that draw. *)
Definition drawn (tr : list event) : list ctx_op :=
  omap (λ ev, match ev with Ctx op => Some op | _ => None end) tr.


(** The four styles the code knows. *)
Definition known_style (style : value) : bool :=
  style_is style "gaming" || style_is style "vlog" ||
  style_is style "tutorial" || style_is style "news".

End Thumbnail.

(** ** [src/functions/content/playlists.ts]: durations *)

Module Playlist.
Import Js.

(** Arithmetic and comparison of numbers, with [NaN] as JavaScript has
    it. The code computes in doubles: these are its sums and products
    as long as operands and results are integers up to 2^53, and the
    properties proved of them keep to that range. *)
Definition num_add (a b : number) : number :=
  match a, b with
  | Int x, Int y => Int (x + y)
  | _, _ => NaN
  end.

Definition num_mul (a b : number) : number :=
  match a, b with
  | Int x, Int y => Int (x * y)
  | _, _ => NaN
  end.

(** [a <= b] *)
Definition num_le (a b : number) : bool :=
  match a, b with
  | Int x, Int y => (x <=? y)%Z
  | _, _ => false
  end.

(** [\d] *)
Definition is_digit (c : Ascii.ascii) : bool :=
  let n := Ascii.nat_of_ascii c in (48 <=? n)%nat && (n <=? 57)%nat.

Definition digit_value (c : Ascii.ascii) : Z :=
  Z.of_nat (Ascii.nat_of_ascii c) - 48.

(** [\d+] at the head of [s], greedy: the digits and what follows. *)
Fixpoint digits (s : string) : string * string :=
  match s with
  | String c s' =>
      if is_digit c
      then let (d, rest) := digits s' in (String c d, rest)
      else (EmptyString, s)
  | EmptyString => (EmptyString, EmptyString)
  end.

(** An optional group [(\d+U)?] at the head of [s], for a letter [U]:
    the text of the group when it takes part, and what follows. The
    digits are followed by a digit or by the character after the last
    of them, so only the longest run can be followed by [U]. *)
Definition group (unit : Ascii.ascii) (s : string) : option string * string :=
  match digits s with
  | (String c d, String u rest) =>
      if Ascii.eqb u unit
      then (Some (String c d +:+ String unit EmptyString), rest)
      else (None, s)
  | _ => (None, s)
  end.

(** The text after the leftmost [PT] of [s]. *)
Fixpoint after_PT (s : string) : option string :=
  match TestScript.literal "PT" s with
  | Some rest => Some rest
  | None =>
      match s with
      | String _ s' => after_PT s'
      | EmptyString => None
      end
  end.

(** [duration.match(/PT(\d+H)?(\d+M)?(\d+S)?/)]: the three groups of
    the leftmost match (after [PT] the rest of the pattern always
    matches), or [null]. *)
Definition match_duration (duration : string)
    : option (option string * option string * option string) :=
  match after_PT duration with
  | Some rest =>
      let (g1, r1) := group (Ascii.ascii_of_nat 72) rest in
      let (g2, r2) := group (Ascii.ascii_of_nat 77) r1 in
      let (g3, _) := group (Ascii.ascii_of_nat 83) r2 in
      Some (g1, g2, g3)
  | None => None
  end.

(** [parseInt(s)] of a text without sign or leading blanks, as the
    groups are: the value of the decimal digits at its head, [NaN] when
    there is none. This is the number JavaScript returns as long as the
    value is at most 2^53; a larger one is rounded to a double there,
    and the properties proved of it keep below. *)
Fixpoint parseInt_from (acc : Z) (s : string) : Z :=
  match s with
  | String c s' =>
      if is_digit c then parseInt_from (acc * 10 + digit_value c) s' else acc
  | EmptyString => acc
  end.

Definition parseInt (s : string) : number :=
  match s with
  | String c _ => if is_digit c then Int (parseInt_from 0 s) else NaN
  | EmptyString => NaN
  end.

(** [if (g) seconds += parseInt(g) * factor], for a group [g] that is
    a string or [undefined]. *)
Definition add_group (g : option string) (factor : Z) (seconds : number)
    : number :=
  match g with
  | Some text =>
      if truthy (VStr text)
      then num_add seconds (num_mul (parseInt text) (Int factor))
      else seconds
  | None => seconds
  end.

(** [private parseDuration(duration: string): number]. The argument is
    what the caller read from a video: [match] is no method of anything
    but a string, and [match[1]] throws when nothing matched. *)
Definition parseDuration (duration : value) : result number :=
  match duration with
  | VStr s =>
      match match_duration s with
      | Some (g1, g2, g3) =>
          let seconds := Int 0 in
          let seconds := add_group g1 3600 seconds in
          let seconds := add_group g2 60 seconds in
          let seconds := add_group g3 1 seconds in
          Ok seconds
      | None => Throw (TypeError_read VNull "1")
      end
  | VUndefined | VNull => Throw (TypeError_read duration "match")
  | _ => Throw (JsError "duration.match is not a function")
  end.

(** The loop of [selectVideosForDuration]. *)
Fixpoint select_loop (videos : list value) (targetDuration : number)
    (selected : list value) (currentDuration : number)
    : result (list value) :=
  match videos with
  | [] => Ok selected
  | video :: rest =>
      contentDetails ← get_prop video "contentDetails";
      d ← get_prop contentDetails "duration";
      duration ← parseDuration d;
      if num_le (num_add currentDuration duration) targetDuration
      then select_loop rest targetDuration (selected ++ [video])
             (num_add currentDuration duration)
      else select_loop rest targetDuration selected currentDuration
  end.

(** [private selectVideosForDuration(videos: any[], targetDuration:
    number): any[]] *)
Definition selectVideosForDuration (videos : list value)
    (targetDuration : number) : result (list value) :=
  select_loop videos targetDuration [] (Int 0).

End Playlist.

(** The seconds of a video, as [selectVideosForDuration] reads them. *)
Definition video_seconds (video : value) : result number :=
  contentDetails ← get_prop video "contentDetails";
  d ← get_prop contentDetails "duration";
  Playlist.parseDuration d.

(** An ISO 8601 time-only duration: [PT], then the hours, minutes and
    seconds that are given, each with its letter. *)
Definition iso_part (n : option N) (unit : string) : string :=
  match n with
  | Some x => pretty x +:+ unit
  | None => ""
  end.

Definition iso_duration (h m s : option N) : string :=
  "PT" +:+ iso_part h "H" +:+ iso_part m "M" +:+ iso_part s "S".

Fixpoint all_digits (s : string) : bool :=
  match s with
  | EmptyString => true
  | String c s' => Playlist.is_digit c && all_digits s'
  end.

(** A text that does not start with a digit. *)
Definition no_digit_ahead (s : string) : bool :=
  match s with
  | EmptyString => true
  | String c _ => negb (Playlist.is_digit c)
  end.

(** A text without the letter [P]. *)
Fixpoint no_P (s : string) : bool :=
  match s with
  | EmptyString => true
  | String c s' => negb (Ascii.eqb (Ascii.ascii_of_nat 80) c) && no_P s'
  end.

(** The sum of a list of seconds. *)
Definition total (secs : list Z) : Z := foldr Z.add 0%Z secs.

(** [Number.MAX_SAFE_INTEGER]: up to it every integer is a double, and
    sums and products of integers that stay below it are exact. *)
Definition MAX_SAFE_INTEGER : Z := 2 ^ 53 - 1.

(** The events of [generateThumbnail] that change the disk. *)
Definition touches_disk (ev : Thumbnail.event) : bool :=
  match ev with
  | Thumbnail.Mkdir _ _ | Thumbnail.WriteFile _ => true
  | _ => false
  end.

(** A well-formed video id: eleven characters of the class of the
    patterns. *)
Fixpoint all_id_chars (s : string) : bool :=
  match s with
  | EmptyString => true
  | String c s' => TestScript.id_char c && all_id_chars s'
  end.

Definition valid_id (v : string) : Prop :=
  String.length v = 11%nat ∧ all_id_chars v = true.

(** A text without the letter [y], with which every alternative of the
    URL pattern starts. *)
Fixpoint no_y (s : string) : bool :=
  match s with
  | EmptyString => true
  | String c s' => negb (Ascii.eqb (Ascii.ascii_of_nat 121) c) && no_y s'
  end.

(** ** Further sample data *)

(** A response whose list holds a [null] between two records. *)
Definition holed_response : value :=
  VObj [("data", VObj [("items", VArr [thread 0; VNull; thread 2]);
                       ("pageInfo", page_info)])].

Definition answering_holed : Comment.world :=
  {| Comment.YOUTUBE_API_KEY := Some "key";
     Comment.commentThreads_list := λ _ _, Ok holed_response;
     Comment.comments_list := λ _ _, Ok holed_response |}.

(** A thread whose comment has an empty text. *)
Definition empty_text_thread : value :=
  VObj [("id", VStr "t4");
        ("snippet", VObj [("topLevelComment",
           VObj [("snippet", VObj [("textDisplay", VStr "")])])])].

(** Surroundings where the disk and the image loader work. *)
Definition studio : Thumbnail.world :=
  {| Thumbnail.loadImage := λ _, Ok ();
     Thumbnail.cwd := "/srv";
     Thumbnail.path_join := λ a b, a +:+ "/" +:+ b;
     Thumbnail.mkdir := λ _, Ok ();
     Thumbnail.now := 1700000000000;
     Thumbnail.writeFile := λ _, Ok () |}.

(** Surroundings where no image can be loaded. *)
Definition studio_offline : Thumbnail.world :=
  {| Thumbnail.loadImage := λ _, Throw (JsError "ENOTFOUND");
     Thumbnail.cwd := "/srv";
     Thumbnail.path_join := λ a b, a +:+ "/" +:+ b;
     Thumbnail.mkdir := λ _, Ok ();
     Thumbnail.now := 1700000000000;
     Thumbnail.writeFile := λ _, Ok () |}.


Definition news_args : Thumbnail.GenerateParams :=
  {| Thumbnail.title := VStr "My video";
     Thumbnail.imageUrl := VStr "https://example.org/bg.png";
     Thumbnail.style := VStr "news" |}.

(** A video as [videos.list] returns it, with its ISO 8601 duration. *)
Definition video (id duration : string) : value :=
  VObj [("id", VStr id);
        ("contentDetails", VObj [("duration", VStr duration)])].

Definition three_videos : list value :=
  [video "a" "PT50S"; video "b" "PT1M40S"; video "c" "PT10S"].

(** ** Properties of [Array.prototype.map] in the error monad *)

Section MapM.
Context {A B : Type} (f : A → result B).

(** The callbacks of a concatenation are those of the first part, then
    those of the second; the first exception, if any, is the outcome. *)
Lemma mapM_result_app (xs ys : list A) :
  mapM f (xs ++ ys) = a ← mapM f xs; b ← mapM f ys; Ok (a ++ b).
Proof.
  induction xs as [|x xs IH]; simpl.
  - destruct (mapM f ys); reflexivity.
  - destruct (f x) as [y|e]; simpl; [|reflexivity].
    rewrite IH. destruct (mapM f xs) as [a|e]; simpl; [|reflexivity].
    destruct (mapM f ys); reflexivity.
Qed.

(** Where the callback returns on every element, [map] returns, and
    its result relates to the input element by element. *)
Lemma mapM_result_total (P : A → Prop) (xs : list A) :
  (∀ x, P x → ∃ y, f x = Ok y) →
  Forall P xs →
  ∃ out, mapM f xs = Ok out ∧ Forall2 (λ x y, f x = Ok y) xs out.
Proof.
  intros Hf. induction 1 as [|x xs Hx _ [out [IH1 IH2]]].
  - exists []. split; [reflexivity | constructor].
  - destruct (Hf x Hx) as [y Hy]. exists (y :: out). split.
    + simpl. rewrite Hy. simpl. rewrite IH1. reflexivity.
    + constructor; assumption.
Qed.

(** A callback that returns [g x] on every element makes [map] the
    plain map of [g]. *)
Lemma mapM_result_fmap (P : A → Prop) (g : A → B) (xs : list A) :
  (∀ x, P x → f x = Ok (g x)) →
  Forall P xs →
  mapM f xs = Ok (g <$> xs).
Proof.
  intros Hf. induction 1 as [|x xs Hx _ IH]; [reflexivity|].
  simpl. rewrite (Hf x Hx). simpl. rewrite IH. reflexivity.
Qed.

Lemma mapM_result_Forall2 (xs : list A) (out : list B) :
  mapM f xs = Ok out → Forall2 (λ x y, f x = Ok y) xs out.
Proof.
  revert out. induction xs as [|x xs IH]; simpl; intros out H.
  - injection H as <-. constructor.
  - destruct (f x) as [y|e] eqn:Hy; simpl in H; [|discriminate].
    destruct (mapM f xs) as [k|e]; simpl in H; [|discriminate].
    injection H as <-. constructor; auto.
Qed.
End MapM.

(** ** The projection of one record *)

Section Projection.
Import Comment.

(** On an object the callbacks run their three reads without a
    [TypeError]. *)
Lemma essential_comment_object (fields : list (string * value)) :
  essential_comment (VObj fields) =
  Ok (VObj [("parentId", own "id" fields);
            ("text", or_ (get_opt (get_opt (get_opt (own "snippet" fields)
                                     "topLevelComment") "snippet")
                            "textDisplay") (VStr ""))]).
Proof. reflexivity. Qed.

Lemma essential_reply_object (fields : list (string * value)) :
  essential_reply (VObj fields) =
  Ok (or_ (get_opt (own "snippet" fields) "textDisplay") (VStr "")).
Proof. reflexivity. Qed.

Lemma essential_comment_returns (r : value) :
  is_object r → ∃ o, essential_comment r = Ok o.
Proof.
  destruct r; simpl; try contradiction. intros _.
  eexists. apply essential_comment_object.
Qed.

Lemma essential_reply_returns (r : value) :
  is_object r → ∃ o, essential_reply r = Ok o.
Proof.
  destruct r; simpl; try contradiction. intros _.
  eexists. apply essential_reply_object.
Qed.

(** A projected comment is an object with the two keys [parentId] and
    [text], in this order. *)
Lemma essential_comment_keys (r o : value) :
  essential_comment r = Ok o →
  is_object o ∧ Object_keys o = ["parentId"; "text"].
Proof.
  unfold essential_comment, get_prop.
  destruct (nullish r); simpl; [discriminate|].
  intros [= <-]. split; [exact I | reflexivity].
Qed.

(** What [map] gives for a callback that returns on every object. *)
Lemma Array_map_objects (name : string) (f : value → result value)
    (rs : list value) :
  (∀ r, is_object r → ∃ o, f r = Ok o) →
  Forall (λ r, is_object r) rs →
  ∃ out, Array_map name f (VArr rs) = Ok (VArr out) ∧
         Forall2 (λ r o, f r = Ok o) rs out.
Proof.
  intros Hf Hrs.
  destruct (mapM_result_total f (λ r, is_object r) rs Hf Hrs) as [out [H1 H2]].
  exists out. split; [|assumption]. simpl. rewrite H1. reflexivity.
Qed.

Lemma Array_map_app (name : string) (f : value → result value)
    (xs ys a b : list value) :
  Array_map name f (VArr xs) = Ok (VArr a) →
  Array_map name f (VArr ys) = Ok (VArr b) →
  Array_map name f (VArr (xs ++ ys)) = Ok (VArr (a ++ b)).
Proof.
  simpl. rewrite mapM_result_app.
  destruct (mapM f xs) as [a'|]; simpl; [|discriminate]. intros [= ->].
  destruct (mapM f ys) as [b'|]; simpl; [|discriminate]. intros [= ->].
  reflexivity.
Qed.

Lemma Array_map_singleton (name : string) (f : value → result value)
    (x o : value) :
  f x = Ok o → Array_map name f (VArr [x]) = Ok (VArr [o]).
Proof. intros H. simpl. rewrite H. reflexivity. Qed.

Lemma essential_comment_keys_all (rs out : list value) :
  Forall2 (λ r o, essential_comment r = Ok o) rs out →
  Forall (λ o, is_object o ∧ Object_keys o = ["parentId"; "text"]) out.
Proof.
  induction 1 as [|r o rs out Hro _ IH]; constructor.
  - eapply essential_comment_keys, Hro.
  - exact IH.
Qed.

(** The projection of a reply record is its display text, the empty
    string when it has none. *)
Lemma essential_reply_text (r : value) :
  reply_record r →
  essential_reply r = Ok (VStr (default "" (display_text r))).
Proof.
  intros [Hobj Htext].
  destruct r as [| | | | | |fields]; simpl in Hobj; try contradiction.
  rewrite essential_reply_object. unfold display_text. simpl in Htext |- *.
  destruct (get_opt (own "snippet" fields) "textDisplay") as [| | | |s| |];
    simpl in Htext; try contradiction; try reflexivity.
  destruct s; reflexivity.
Qed.

Lemma extractEssentialReplies_texts (items : list value) :
  Forall reply_record items →
  extractEssentialReplies (VArr items) =
    Ok (VArr ((λ r, VStr (default "" (display_text r))) <$> items)).
Proof.
  intros H. simpl.
  rewrite (mapM_result_fmap essential_reply reply_record _ items
             essential_reply_text H).
  reflexivity.
Qed.

Lemma Forall2_lookup_result {X Y : Type} (R : X → Y → Prop)
    (xs : list X) (ys : list Y) (i : nat) (x : X) :
  Forall2 R xs ys → xs !! i = Some x → ∃ y, ys !! i = Some y ∧ R x y.
Proof. intros H Hx. exact (Forall2_lookup_l R xs ys i x H Hx). Qed.
End Projection.

(** ** Properties of the projection functions *)

(** C5. Order preservation: the projection of a sequence of n upstream
    records, of comment threads and of replies alike, returns a sequence
    of length n whose i-th element is what the callback makes of the
    i-th record: nothing is filtered and nothing is reordered. *)
Theorem C5_order_preservation (rs : list value) :
  Forall (λ r, is_object r) rs →
  (∃ out, Comment.extractEssentialComments (VArr rs) = Ok (VArr out) ∧
     length out = length rs ∧
     ∀ i r, rs !! i = Some r →
       ∃ o, out !! i = Some o ∧ Comment.essential_comment r = Ok o) ∧
  (∃ out, Comment.extractEssentialReplies (VArr rs) = Ok (VArr out) ∧
     length out = length rs ∧
     ∀ i r, rs !! i = Some r →
       ∃ o, out !! i = Some o ∧ Comment.essential_reply r = Ok o).
Proof.
  intros Hrs. split.
  - destruct (Array_map_objects "comments" Comment.essential_comment rs
                essential_comment_returns Hrs) as [out [H1 H2]].
    exists out. split; [exact H1|]. split.
    + symmetry. eapply Forall2_length, H2.
    + intros i r Hi. eapply Forall2_lookup_result in H2; eauto.
  - destruct (Array_map_objects "replies" Comment.essential_reply rs
                essential_reply_returns Hrs) as [out [H1 H2]].
    exists out. split; [exact H1|]. split.
    + symmetry. eapply Forall2_length, H2.
    + intros i r Hi. eapply Forall2_lookup_result in H2; eauto.
Qed.

Lemma C5_order_preservation_witness :
  Forall (λ r, is_object r) two_threads ∧
  (∃ out, Comment.extractEssentialComments (VArr two_threads) = Ok (VArr out) ∧
     length out = length two_threads ∧
     ∀ i r, two_threads !! i = Some r →
       ∃ o, out !! i = Some o ∧ Comment.essential_comment r = Ok o) ∧
  (∃ out, Comment.extractEssentialReplies (VArr two_threads) = Ok (VArr out) ∧
     length out = length two_threads ∧
     ∀ i r, two_threads !! i = Some r →
       ∃ o, out !! i = Some o ∧ Comment.essential_reply r = Ok o).
Proof.
  split; [|apply (C5_order_preservation two_threads)]; repeat constructor.
Defined.

(** C9. The projections are pointwise: on record lists, the projection
    of a concatenation is the concatenation of the projections, and the
    projection of a one-element list holds what the callback makes of
    that element. *)
Theorem C9_pointwise :
  (∀ xs ys : list value,
     Forall (λ r, is_object r) xs → Forall (λ r, is_object r) ys →
     ∃ a b,
       Comment.extractEssentialComments (VArr xs) = Ok (VArr a) ∧
       Comment.extractEssentialComments (VArr ys) = Ok (VArr b) ∧
       Comment.extractEssentialComments (VArr (xs ++ ys)) = Ok (VArr (a ++ b))) ∧
  (∀ xs ys : list value,
     Forall (λ r, is_object r) xs → Forall (λ r, is_object r) ys →
     ∃ a b,
       Comment.extractEssentialReplies (VArr xs) = Ok (VArr a) ∧
       Comment.extractEssentialReplies (VArr ys) = Ok (VArr b) ∧
       Comment.extractEssentialReplies (VArr (xs ++ ys)) = Ok (VArr (a ++ b))) ∧
  (∀ x : value, is_object x →
     ∃ o p,
       Comment.essential_comment x = Ok o ∧
       Comment.extractEssentialComments (VArr [x]) = Ok (VArr [o]) ∧
       Comment.essential_reply x = Ok p ∧
       Comment.extractEssentialReplies (VArr [x]) = Ok (VArr [p])).
Proof.
  split; [|split].
  - intros xs ys Hxs Hys.
    destruct (Array_map_objects "comments" _ xs essential_comment_returns Hxs)
      as [a [Ha _]].
    destruct (Array_map_objects "comments" _ ys essential_comment_returns Hys)
      as [b [Hb _]].
    exists a, b. split; [exact Ha|]. split; [exact Hb|].
    apply Array_map_app; assumption.
  - intros xs ys Hxs Hys.
    destruct (Array_map_objects "replies" _ xs essential_reply_returns Hxs)
      as [a [Ha _]].
    destruct (Array_map_objects "replies" _ ys essential_reply_returns Hys)
      as [b [Hb _]].
    exists a, b. split; [exact Ha|]. split; [exact Hb|].
    apply Array_map_app; assumption.
  - intros x Hx.
    destruct (essential_comment_returns x Hx) as [o Ho].
    destruct (essential_reply_returns x Hx) as [p Hp].
    exists o, p. split; [exact Ho|]. split.
    + apply Array_map_singleton, Ho.
    + split; [exact Hp|]. apply Array_map_singleton, Hp.
Qed.

Lemma C9_pointwise_witness :
  Forall (λ r, is_object r) two_threads ∧ is_object bare_thread ∧
  ∃ a b,
    Comment.extractEssentialComments (VArr two_threads) = Ok (VArr a) ∧
    Comment.extractEssentialComments (VArr [bare_thread]) = Ok (VArr b) ∧
    Comment.extractEssentialComments (VArr (two_threads ++ [bare_thread]))
    = Ok (VArr (a ++ b)).
Proof.
  split; [repeat constructor|]. split; [exact I|].
  apply (proj1 C9_pointwise two_threads [bare_thread]); repeat constructor.
Defined.

(** C10. On an array of object records, whatever fields they have,
    both projections return, and every record that
    [extractEssentialComments] produces is an object with exactly the
    fields [parentId] and [text]. *)
Theorem C10_total (rs : list value) :
  Forall (λ r, is_object r) rs →
  (∃ out, Comment.extractEssentialComments (VArr rs) = Ok (VArr out) ∧
     Forall (λ o, is_object o ∧ Object_keys o = ["parentId"; "text"]) out) ∧
  (∃ out, Comment.extractEssentialReplies (VArr rs) = Ok (VArr out)).
Proof.
  intros Hrs. split.
  - destruct (Array_map_objects "comments" _ rs essential_comment_returns Hrs)
      as [out [H1 H2]].
    exists out. split; [exact H1|].
    eapply essential_comment_keys_all, H2.
  - destruct (Array_map_objects "replies" _ rs essential_reply_returns Hrs)
      as [out [H1 _]].
    exists out. exact H1.
Qed.

Lemma C10_total_witness :
  Forall (λ r, is_object r) (bare_thread :: two_threads) ∧
  (∃ out, Comment.extractEssentialComments (VArr (bare_thread :: two_threads))
          = Ok (VArr out) ∧
     Forall (λ o, is_object o ∧ Object_keys o = ["parentId"; "text"]) out) ∧
  (∃ out, Comment.extractEssentialReplies (VArr (bare_thread :: two_threads))
          = Ok (VArr out)).
Proof.
  split; [|apply (C10_total (bare_thread :: two_threads))]; repeat constructor.
Defined.

(** C6. Defaulting: a comment-thread record without its nested snippet
    is projected, without an exception, to the record of its [id] and
    the empty text; and a batch of records that holds it is projected
    as a whole: the projection returns, with the projections of the
    records before it, then its own, then those of the records after
    it. *)
Theorem C6_defaulting (r : value) :
  is_object r →
  nullish (get_opt (get_opt (member r "snippet") "topLevelComment") "snippet") →
  Comment.essential_comment r =
    Ok (VObj [("parentId", member r "id"); ("text", VStr "")]) ∧
  ∀ xs ys : list value,
    Forall (λ x, is_object x) xs → Forall (λ y, is_object y) ys →
    ∃ a b : list value,
      Forall2 (λ x o, Comment.essential_comment x = Ok o) xs a ∧
      Forall2 (λ y o, Comment.essential_comment y = Ok o) ys b ∧
      Comment.extractEssentialComments (VArr (xs ++ r :: ys)) =
        Ok (VArr (a ++ VObj [("parentId", member r "id"); ("text", VStr "")]
                    :: b)).
Proof.
  intros Hr Hs.
  assert (Comment.essential_comment r =
          Ok (VObj [("parentId", member r "id"); ("text", VStr "")])) as Hone.
  { destruct r as [| | | | | |fields]; simpl in Hr; try contradiction.
    rewrite essential_comment_object. simpl in Hs |- *.
    destruct (get_opt (get_opt (own "snippet" fields) "topLevelComment") "snippet");
      simpl in Hs; try contradiction; reflexivity. }
  split; [exact Hone|].
  intros xs ys Hxs Hys.
  destruct (Array_map_objects "comments" _ xs essential_comment_returns Hxs)
    as [a [Ha Hxa]].
  destruct (Array_map_objects "comments" _ ys essential_comment_returns Hys)
    as [b [Hb Hyb]].
  exists a, b. split; [exact Hxa|]. split; [exact Hyb|].
  apply Array_map_app; [exact Ha|].
  change (r :: ys) with ([r] ++ ys).
  change (?o :: b) with ([o] ++ b).
  apply Array_map_app; [|exact Hb].
  apply Array_map_singleton, Hone.
Qed.

Lemma C6_defaulting_witness :
  is_object bare_thread ∧
  nullish (get_opt (get_opt (member bare_thread "snippet") "topLevelComment")
                   "snippet") ∧
  Comment.essential_comment bare_thread =
    Ok (VObj [("parentId", VStr "t3"); ("text", VStr "")]) ∧
  Forall (λ x, is_object x) two_threads ∧
  Forall (λ y, is_object y) [thread 5] ∧
  Comment.extractEssentialComments
    (VArr (two_threads ++ bare_thread :: [thread 5])) =
    Ok (VArr [VObj [("parentId", VStr "t1"); ("text", VStr "first")];
              VObj [("parentId", VStr "t2"); ("text", VStr "second")];
              VObj [("parentId", VStr "t3"); ("text", VStr "")];
              VObj [("parentId", VStr "thread5"); ("text", VStr "comment 5")]]).
Proof.
  destruct (C6_defaulting bare_thread I I) as [Hone Hbatch].
  split; [exact I|]. split; [exact I|]. split; [exact Hone|].
  split; [repeat constructor|]. split; [repeat constructor|].
  destruct (Hbatch two_threads [thread 5]) as [a [b [Ha [Hb H]]]];
    [repeat constructor | repeat constructor |].
  rewrite H. clear H.
  inversion Ha as [|x1 o1 xs1 a1 E1 T1]; subst.
  inversion T1 as [|x2 o2 xs2 a2 E2 T2]; subst.
  inversion T2; subst.
  inversion Hb as [|y1 p1 ys1 b1 F1 U1]; subst.
  inversion U1; subst.
  injection E1 as <-. injection E2 as <-. injection F1 as <-.
  reflexivity.
Defined.

(** ** Records that are already projected *)

Lemma projected_fields (r : value) :
  projected r →
  ∃ p t, r = VObj [("parentId", p); ("text", t)] ∨
         r = VObj [("text", t); ("parentId", p)].
Proof.
  intros [Hobj Hkeys].
  destruct r as [| | | | | |fields]; simpl in Hobj; try contradiction.
  simpl in Hkeys. symmetry in Hkeys.
  apply Permutation_length_2_inv in Hkeys.
  destruct Hkeys as [Hk|Hk];
    destruct fields as [|[k1 v1] [|[k2 v2] [|? ?]]]; simpl in Hk;
    try discriminate; injection Hk as -> ->.
  - exists v1, v2. left. reflexivity.
  - exists v2, v1. right. reflexivity.
Qed.

(** C1, as the code has it. The projection of the test script
    returns a projected record as it is when its [parentId] and its
    [text] are both truthy, and so returns a list of such records as
    the same list. The projection of the service makes no such test: it
    reads [id] and the nested snippet, which a projected record lacks,
    and answers an undefined [parentId] and the empty text. *)
Theorem C1_passthrough_truthy :
  (∀ r, projected r → truthy (member r "parentId") → truthy (member r "text") →
     CommentsTest.essential_comment r = Ok r) ∧
  (∀ rs,
     Forall (λ r, projected r ∧ truthy (member r "parentId") ∧
                  truthy (member r "text")) rs →
     CommentsTest.extractEssentialComments (VArr rs) = Ok (VArr rs)) ∧
  (∀ r, projected r →
     Comment.essential_comment r =
       Ok (VObj [("parentId", VUndefined); ("text", VStr "")])).
Proof.
  assert (∀ r, projected r → truthy (member r "parentId") →
               truthy (member r "text") →
               CommentsTest.essential_comment r = Ok r) as Hone.
  { intros r Hr Hp Ht.
    destruct (projected_fields r Hr) as [p [t [-> | ->]]];
      simpl in Hp, Ht; apply Is_true_true in Hp, Ht;
      unfold CommentsTest.essential_comment, CommentsTest.and_,
        CommentsTest.not_; cbn;
      rewrite Hp; cbn; rewrite Ht; reflexivity. }
  split; [exact Hone|]. split.
  - intros rs Hrs. simpl.
    assert (mapM CommentsTest.essential_comment rs = Ok rs) as ->; [|reflexivity].
    induction Hrs as [|r rs [Hr [Hp Ht]] _ IH]; [reflexivity|].
    simpl. rewrite (Hone r Hr Hp Ht). simpl. rewrite IH. reflexivity.
  - intros r Hr.
    destruct (projected_fields r Hr) as [p [t [-> | ->]]]; reflexivity.
Qed.

Lemma C1_passthrough_truthy_witness :
  projected projected_hello ∧
  truthy (member projected_hello "parentId") ∧
  truthy (member projected_hello "text") ∧
  CommentsTest.essential_comment projected_hello = Ok projected_hello ∧
  CommentsTest.extractEssentialComments (VArr [projected_hello; projected_hello])
  = Ok (VArr [projected_hello; projected_hello]) ∧
  Comment.essential_comment projected_hello =
    Ok (VObj [("parentId", VUndefined); ("text", VStr "")]).
Proof.
  assert (projected projected_hello) as Hp by (split; [exact I | reflexivity]).
  destruct C1_passthrough_truthy as [H1 [H2 H3]].
  split; [exact Hp|]. split; [exact I|]. split; [exact I|].
  split; [apply (H1 projected_hello Hp); exact I|].
  split; [apply (H2 [projected_hello; projected_hello]); repeat constructor;
          exact Hp|].
  apply (H3 projected_hello Hp).
Defined.

(** C1 as stated fails. The service's projection turns the projected
    record [{parentId: 'abc', text: 'hello'}] into
    [{parentId: undefined, text: ''}]; the test script's projection
    does the same to [{parentId: 'abc', text: ''}], whose empty text
    fails its truthiness test. *)
Lemma C1_counterexample :
  projected projected_hello ∧
  Comment.extractEssentialComments (VArr [projected_hello]) =
    Ok (VArr [VObj [("parentId", VUndefined); ("text", VStr "")]]) ∧
  Comment.extractEssentialComments (VArr [projected_hello]) ≠
    Ok (VArr [projected_hello]) ∧
  projected projected_empty ∧
  CommentsTest.extractEssentialComments (VArr [projected_empty]) =
    Ok (VArr [VObj [("parentId", VUndefined); ("text", VStr "")]]) ∧
  CommentsTest.extractEssentialComments (VArr [projected_empty]) ≠
    Ok (VArr [projected_empty]).
Proof.
  split; [split; [exact I | reflexivity]|].
  split; [reflexivity|]. split; [discriminate|].
  split; [split; [exact I | reflexivity]|].
  split; [reflexivity|]. discriminate.
Qed.

(** ** The service operations *)

(** [initialize] sends no request, and builds a client only on a service
    that is not initialized. *)
Lemma initialize_trace (w : Comment.world) (this this' : Comment.CommentService)
    (tr : list Comment.event) (r : result unit) :
  Comment.initialize w this = (this', tr, r) →
  Comment.requests tr = [] ∧
  (Comment.initialized this = true → this' = this ∧ tr = []) ∧
  (Comment.initialized this = false →
     (this' = this ∧ tr = [] ∧ ∃ e, r = Throw e) ∨
     (Comment.initialized this' = true ∧ Comment.constructions tr = 1 ∧ r = Ok ())).
Proof.
  unfold Comment.initialize.
  destruct (Comment.initialized this) eqn:Hi.
  - intros [= <- <- <-]. repeat split; try discriminate; reflexivity.
  - destruct (Comment.YOUTUBE_API_KEY w) as [k|].
    + destruct (negb (truthy (VStr k))); intros [= <- <- <-];
        (split; [reflexivity|]); (split; [discriminate|]); intros _.
      * left. eauto.
      * right. repeat split; reflexivity.
    + intros [= <- <- <-].
      split; [reflexivity|]. split; [discriminate|]. intros _. left. eauto.
Qed.

Lemma requests_after_initialize (w : Comment.world)
    (this this' : Comment.CommentService) (tr : list Comment.event)
    (r : result unit) (e : Comment.event) :
  Comment.initialize w this = (this', tr, r) →
  Comment.is_request e = true →
  Comment.requests (tr ++ [e]) = [e].
Proof.
  intros H He. apply initialize_trace in H as [H _].
  unfold Comment.requests in *. rewrite List.filter_app, H. simpl.
  rewrite He. reflexivity.
Qed.

Section Ready.
Import Comment.

(** A call that finds the service ready: [initialize] returns, at once
    or after building the client, and leaves client [c] in the
    service. *)
Variables (w : world) (this this' : CommentService) (tr0 : list event)
          (c : client).
Hypothesis Hinit : initialize w this = (this', tr0, Ok ()).
Hypothesis Hclient : youtube this' = Some c.

Ltac enter :=
  unfold getVideoComments, getCommentReplies, try_catch, mbind, Eff_bind,
    call_commentThreads_list, call_comments_list, lift;
  rewrite Hinit, Hclient.



(** The outcome of [getVideoComments] when the upstream call answers
    an object [data] whose [items], if any, the projection accepts. *)
Lemma getVideoComments_fulfilled (a : VideoCommentsParams)
    (response data comments : value) :
  commentThreads_list w c (commentThreads_request a) = Ok response →
  get_prop response "data" = Ok data →
  nullish data = false →
  extractEssentialComments (or_ (member data "items") (VArr [])) = Ok comments →
  getVideoComments w a this =
    (this', tr0 ++ [CommentThreadsList c (commentThreads_request a)],
     Ok (VObj [("comments", comments); ("pageInfo", member data "pageInfo")])).
Proof.
  intros Hr Hd Hn Hc. enter. rewrite Hr, Hd.
  unfold get_prop. rewrite Hn, Hc. reflexivity.
Qed.

Lemma getCommentReplies_fulfilled (a : CommentRepliesParams)
    (response data replies : value) :
  comments_list w c (comments_request a) = Ok response →
  get_prop response "data" = Ok data →
  nullish data = false →
  extractEssentialReplies (or_ (member data "items") (VArr [])) = Ok replies →
  getCommentReplies w a this =
    (this', tr0 ++ [CommentsList c (comments_request a)], Ok replies).
Proof.
  intros Hr Hd Hn Hc. enter. rewrite Hr, Hd.
  unfold get_prop. rewrite Hn, Hc. reflexivity.
Qed.
End Ready.

(** C3. [getVideoComments], ready to call the upstream API, sends
    exactly one request, for the comment threads of the video by
    relevance, with [maxResults] 20 and [textFormat] ['plainText'] where
    the caller gives none; when the answer lists n thread records, it
    returns [{ comments, pageInfo }] where [comments] has n elements,
    each with exactly the keys [parentId] and [text], and [pageInfo] is
    the upstream one. *)
Theorem C3_getVideoComments (w : Comment.world)
    (this this' : Comment.CommentService) (tr0 : list Comment.event)
    (c : Comment.client) (a : Comment.VideoCommentsParams)
    (response data : value) (items : list value) :
  let request :=
    {| Comment.ct_part := ["snippet"; "replies"];
       Comment.ct_videoId := Comment.videoId a;
       Comment.ct_maxResults := default_to (VNum (Int 20)) (Comment.maxResults a);
       Comment.ct_textFormat :=
         default_to (VStr "plainText") (Comment.textFormat a);
       Comment.ct_order := "relevance" |} in
  Comment.initialize w this = (this', tr0, Ok ()) →
  Comment.youtube this' = Some c →
  Comment.commentThreads_list w c request = Ok response →
  get_prop response "data" = Ok data →
  member data "items" = VArr items →
  Forall (λ r, is_object r) items →
  ∃ comments,
    Comment.getVideoComments w a this =
      (this', tr0 ++ [Comment.CommentThreadsList c request],
       Ok (VObj [("comments", VArr comments);
                 ("pageInfo", member data "pageInfo")])) ∧
    Comment.requests (tr0 ++ [Comment.CommentThreadsList c request]) =
      [Comment.CommentThreadsList c request] ∧
    (Comment.maxResults a = VUndefined →
       Comment.ct_maxResults request = VNum (Int 20)) ∧
    (Comment.textFormat a = VUndefined →
       Comment.ct_textFormat request = VStr "plainText") ∧
    length comments = length items ∧
    Forall (λ o, is_object o ∧ Object_keys o = ["parentId"; "text"]) comments.
Proof.
  intros request Hinit Hclient Hresp Hdata Hitems Hobj.
  assert (nullish data = false) as Hn.
  { destruct data; try reflexivity; discriminate. }
  destruct (Array_map_objects "comments" _ items essential_comment_returns Hobj)
    as [comments [Hc Hall]].
  assert (length comments = length items) as Hlen.
  { symmetry. eapply Forall2_length, Hall. }
  assert (Forall (λ o, is_object o ∧ Object_keys o = ["parentId"; "text"])
            comments) as Hkeys.
  { eapply essential_comment_keys_all, Hall. }
  exists comments. split; [|split; [|split; [|split; [|split]]]].
  - apply (getVideoComments_fulfilled w this this' tr0 c Hinit Hclient a
             response data (VArr comments) Hresp Hdata Hn).
    rewrite Hitems. exact Hc.
  - eapply requests_after_initialize; [exact Hinit | reflexivity].
  - intros Hm. simpl. rewrite Hm. reflexivity.
  - intros Hm. simpl. rewrite Hm. reflexivity.
  - exact Hlen.
  - exact Hkeys.
Qed.

Lemma C3_getVideoComments_witness :
  ∃ comments,
    Comment.getVideoComments answering video_args Comment.new_CommentService =
      (ready_service,
       [Comment.Constructed the_client] ++
       [Comment.CommentThreadsList the_client
          {| Comment.ct_part := ["snippet"; "replies"];
             Comment.ct_videoId := VStr "dQw4w9WgXcQ";
             Comment.ct_maxResults := VNum (Int 10);
             Comment.ct_textFormat := VStr "plainText";
             Comment.ct_order := "relevance" |}],
       Ok (VObj [("comments", VArr comments); ("pageInfo", page_info)])) ∧
    length comments = 10 ∧
    Forall (λ o, is_object o ∧ Object_keys o = ["parentId"; "text"]) comments.
Proof.
  destruct (C3_getVideoComments answering Comment.new_CommentService
              ready_service [Comment.Constructed the_client] the_client
              video_args threads_response
              (VObj [("items", VArr (thread <$> seq 0 10));
                     ("pageInfo", page_info)])
              (thread <$> seq 0 10))
    as [comments [H1 [_ [_ [_ [H2 H3]]]]]];
    [reflexivity | reflexivity | reflexivity | reflexivity | reflexivity
    | repeat constructor |].
  exists comments. split; [exact H1|]. split; [exact H2 | exact H3].
Defined.

(** C4. [getCommentReplies], ready to call the upstream API, sends one
    request for the replies to the thread, with [maxResults] 20 and
    [textFormat] ['plainText'] where the caller gives none; when the
    answer lists n reply records it returns an array of n strings, the
    i-th being the display text of the i-th reply, or the empty string
    when that reply has none. *)
Theorem C4_getCommentReplies (w : Comment.world)
    (this this' : Comment.CommentService) (tr0 : list Comment.event)
    (c : Comment.client) (a : Comment.CommentRepliesParams)
    (response data : value) (items : list value) :
  let request :=
    {| Comment.c_part := ["snippet"];
       Comment.c_parentId := Comment.parentId a;
       Comment.c_maxResults := default_to (VNum (Int 20)) (Comment.r_maxResults a);
       Comment.c_textFormat :=
         default_to (VStr "plainText") (Comment.r_textFormat a) |} in
  Comment.initialize w this = (this', tr0, Ok ()) →
  Comment.youtube this' = Some c →
  Comment.comments_list w c request = Ok response →
  get_prop response "data" = Ok data →
  member data "items" = VArr items →
  Forall reply_record items →
  ∃ texts : list string,
    Comment.getCommentReplies w a this =
      (this', tr0 ++ [Comment.CommentsList c request], Ok (VArr (VStr <$> texts))) ∧
    Comment.requests (tr0 ++ [Comment.CommentsList c request]) =
      [Comment.CommentsList c request] ∧
    (Comment.r_maxResults a = VUndefined →
       Comment.c_maxResults request = VNum (Int 20)) ∧
    (Comment.r_textFormat a = VUndefined →
       Comment.c_textFormat request = VStr "plainText") ∧
    length texts = length items ∧
    ∀ i r, items !! i = Some r → texts !! i = Some (default "" (display_text r)).
Proof.
  intros request Hinit Hclient Hresp Hdata Hitems Hrec.
  assert (nullish data = false) as Hn.
  { destruct data; try reflexivity; discriminate. }
  exists ((λ r, default "" (display_text r)) <$> items).
  split; [|split; [|split; [|split; [|split]]]].
  - apply (getCommentReplies_fulfilled w this this' tr0 c Hinit Hclient a
             response data _ Hresp Hdata Hn).
    rewrite Hitems. change (or_ (VArr items) (VArr [])) with (VArr items).
    rewrite (extractEssentialReplies_texts items Hrec).
    rewrite <- list_fmap_compose. reflexivity.
  - eapply requests_after_initialize; [exact Hinit | reflexivity].
  - intros Hm. simpl. rewrite Hm. reflexivity.
  - intros Hm. simpl. rewrite Hm. reflexivity.
  - apply length_fmap.
  - intros i r Hi. rewrite list_lookup_fmap, Hi. reflexivity.
Qed.

Lemma C4_getCommentReplies_witness :
  ∃ texts : list string,
    Comment.getCommentReplies answering replies_args ready_service =
      (ready_service,
       [] ++ [Comment.CommentsList the_client
                {| Comment.c_part := ["snippet"];
                   Comment.c_parentId := VStr "abc";
                   Comment.c_maxResults := VNum (Int 5);
                   Comment.c_textFormat := VStr "plainText" |}],
       Ok (VArr (VStr <$> texts))) ∧
    length texts = 5 ∧
    texts !! 0 = Some "reply 0" ∧
    texts !! 4 = Some "".
Proof.
  destruct (C4_getCommentReplies answering ready_service ready_service []
              the_client replies_args replies_response
              (VObj [("items", VArr ((reply <$> seq 0 4) ++ [silent_reply]))])
              ((reply <$> seq 0 4) ++ [silent_reply]))
    as [texts [H1 [_ [_ [_ [H2 H3]]]]]];
    [reflexivity | reflexivity | reflexivity | reflexivity | reflexivity
    | repeat constructor |].
  exists texts. split; [exact H1|]. split; [exact H2|]. split.
  - apply (H3 0 (reply 0)). reflexivity.
  - apply (H3 4 silent_reply). reflexivity.
Defined.



(** C8. When the upstream response has no [items] ([items] absent,
    [null] or [undefined]), [getVideoComments] returns
    [{ comments: [], pageInfo }] and [getCommentReplies] returns the
    empty array. *)
Theorem C8_no_items (w : Comment.world)
    (this this' : Comment.CommentService) (tr0 : list Comment.event)
    (c : Comment.client) (response data : value) :
  Comment.initialize w this = (this', tr0, Ok ()) →
  Comment.youtube this' = Some c →
  get_prop response "data" = Ok data →
  is_object data →
  nullish (member data "items") →
  (∀ a, Comment.commentThreads_list w c (Comment.commentThreads_request a)
        = Ok response →
     Comment.getVideoComments w a this =
       (this', tr0 ++ [Comment.CommentThreadsList c (Comment.commentThreads_request a)],
        Ok (VObj [("comments", VArr []); ("pageInfo", member data "pageInfo")]))) ∧
  (∀ a, Comment.comments_list w c (Comment.comments_request a) = Ok response →
     Comment.getCommentReplies w a this =
       (this', tr0 ++ [Comment.CommentsList c (Comment.comments_request a)],
        Ok (VArr []))).
Proof.
  intros Hinit Hclient Hdata Hobj Hitems.
  assert (nullish data = false) as Hn.
  { destruct data; try reflexivity; contradiction. }
  assert (or_ (member data "items") (VArr []) = VArr []) as Hor.
  { destruct (member data "items"); try contradiction; reflexivity. }
  split; intros a Hresp.
  - apply (getVideoComments_fulfilled w this this' tr0 c Hinit Hclient a
             response data (VArr []) Hresp Hdata Hn).
    rewrite Hor. reflexivity.
  - apply (getCommentReplies_fulfilled w this this' tr0 c Hinit Hclient a
             response data (VArr []) Hresp Hdata Hn).
    rewrite Hor. reflexivity.
Qed.

Lemma C8_no_items_witness :
  Comment.getVideoComments answering_empty video_args ready_service =
    (ready_service,
     [Comment.CommentThreadsList the_client
        (Comment.commentThreads_request video_args)],
     Ok (VObj [("comments", VArr []); ("pageInfo", page_info)])) ∧
  Comment.getCommentReplies answering_empty replies_args ready_service =
    (ready_service,
     [Comment.CommentsList the_client (Comment.comments_request replies_args)],
     Ok (VArr [])).
Proof.
  destruct (C8_no_items answering_empty ready_service ready_service []
              the_client empty_response (VObj [("pageInfo", page_info)]))
    as [H1 H2];
    [reflexivity | reflexivity | reflexivity | exact I | exact I |].
  split.
  - apply (H1 video_args). reflexivity.
  - apply (H2 replies_args). reflexivity.
Defined.

(** ** The life of the API client *)

(** Each operation starts with [initialize]; what follows leaves the
    service object as it is and builds no client. *)
Lemma run_call_initialize (w : Comment.world) (c : Comment.call)
    (this this' : Comment.CommentService) (tr : list Comment.event)
    (r : result value) :
  Comment.run_call w c this = (this', tr, r) →
  ∃ tr1 r1 tr2,
    Comment.initialize w this = (this', tr1, r1) ∧
    tr = tr1 ++ tr2 ∧ Comment.constructions tr2 = 0.
Proof.
  destruct c as [a|a]; simpl;
    unfold Comment.getVideoComments, Comment.getCommentReplies,
      Comment.try_catch, mbind, Comment.Eff_bind,
      Comment.call_commentThreads_list, Comment.call_comments_list,
      Comment.lift, Comment.throw, mret, Comment.Eff_ret;
    destruct (Comment.initialize w this) as [[this1 tr1] [[]|e]];
    intros H; exists tr1.
  all: repeat case_match; simplify_eq.
  all: eexists _, _; split; [reflexivity|].
  all: rewrite <- ?app_assoc; split; reflexivity.
Qed.

Lemma constructions_app (tr tr' : list Comment.event) :
  Comment.constructions (tr ++ tr') =
  Comment.constructions tr + Comment.constructions tr'.
Proof.
  unfold Comment.constructions. rewrite List.filter_app. apply length_app.
Qed.

(** A call on an initialized service leaves it so and builds nothing; a
    call on a service that is not builds at most one client, and if it
    builds one the service is initialized. *)
Lemma run_call_constructions (w : Comment.world) (c : Comment.call)
    (this this' : Comment.CommentService) (tr : list Comment.event)
    (r : result value) :
  Comment.run_call w c this = (this', tr, r) →
  if Comment.initialized this
  then this' = this ∧ Comment.constructions tr = 0
  else (this' = this ∧ Comment.constructions tr = 0) ∨
       (Comment.initialized this' = true ∧ Comment.constructions tr = 1).
Proof.
  intros H.
  destruct (run_call_initialize w c this this' tr r H)
    as [tr1 [r1 [tr2 [Hinit [-> H2]]]]].
  rewrite constructions_app, H2, Nat.add_0_r.
  destruct (initialize_trace w this this' tr1 r1 Hinit) as [_ [Ht Hf]].
  destruct (Comment.initialized this).
  - destruct (Ht eq_refl) as [-> ->]. split; reflexivity.
  - destruct (Hf eq_refl) as [[-> [-> _]] | [Hi [Hc _]]].
    + left. split; reflexivity.
    + right. split; assumption.
Qed.





(** ** Further properties of the comment service *)

Lemma try_catch_wrapped {A : Type} (body : Comment.Eff A) (prefix : string)
    (this this' : Comment.CommentService) (tr : list Comment.event)
    (e : thrown) :
  Comment.try_catch body
    (λ error, Comment.throw (JsError (prefix +:+ error_message error))) this
  = (this', tr, Throw e) →
  ∃ m, e = JsError (prefix +:+ m).
Proof.
  unfold Comment.try_catch, Comment.throw.
  destruct (body this) as [[this1 tr1] [a|err]]; intros [= <- <- <-].
  eexists. reflexivity.
Qed.

(** X1. A failure of an operation reaches the caller as an [Error]
    whose message starts with the prefix of the operation, whatever went
    wrong inside its [try] (the key, the upstream call, the shape of the
    response, a record the projection cannot read). The one failure
    that is not wrapped is that of the parameter list: called on [null]
    or [undefined], the operation throws the engine's [TypeError]
    before it initializes or sends anything. *)
Theorem X1_failures_are_wrapped (destructure_message : value → string)
    (w : Comment.world) (this this' : Comment.CommentService)
    (tr : list Comment.event) (e : thrown) :
  (∀ arg,
     getVideoComments_call destructure_message w arg this = (this', tr, Throw e) →
     if nullish arg
     then e = JsError (destructure_message arg) ∧ tr = [] ∧ this' = this
     else ∃ m, e = JsError ("Failed to get comments: " +:+ m)) ∧
  (∀ arg,
     getCommentReplies_call destructure_message w arg this = (this', tr, Throw e) →
     if nullish arg
     then e = JsError (destructure_message arg) ∧ tr = [] ∧ this' = this
     else ∃ m, e = JsError ("Failed to get replies: " +:+ m)).
Proof.
  split; intros arg;
    unfold getVideoComments_call, getCommentReplies_call;
    destruct (nullish arg).
  - unfold Comment.throw. intros [= <- <- <-]. repeat split.
  - intros H. exact (try_catch_wrapped _ _ this this' tr e H).
  - unfold Comment.throw. intros [= <- <- <-]. repeat split.
  - intros H. exact (try_catch_wrapped _ _ this this' tr e H).
Qed.

Lemma X1_failures_are_wrapped_witness :
  getVideoComments_call (λ _, "destructuring failed") rejecting
    (VObj [("videoId", VStr "dQw4w9WgXcQ")]) ready_service =
    (ready_service,
     [Comment.CommentThreadsList the_client
        {| Comment.ct_part := ["snippet"; "replies"];
           Comment.ct_videoId := VStr "dQw4w9WgXcQ";
           Comment.ct_maxResults := VNum (Int 20);
           Comment.ct_textFormat := VStr "plainText";
           Comment.ct_order := "relevance" |}],
     Throw (JsError "Failed to get comments: quotaExceeded")) ∧
  (∃ m, JsError "Failed to get comments: quotaExceeded" =
        JsError ("Failed to get comments: " +:+ m)) ∧
  getCommentReplies_call (λ _, "destructuring failed") answering VUndefined
    Comment.new_CommentService =
    (Comment.new_CommentService, [], Throw (JsError "destructuring failed")).
Proof.
  split; [reflexivity|]. split; [|reflexivity].
  apply (proj1 (X1_failures_are_wrapped (λ _, "destructuring failed")
                  rejecting ready_service ready_service
                  [Comment.CommentThreadsList the_client
                     (Comment.commentThreads_request
                        {| Comment.videoId := VStr "dQw4w9WgXcQ";
                           Comment.maxResults := VUndefined;
                           Comment.textFormat := VUndefined |})]
                  (JsError "Failed to get comments: quotaExceeded"))
           (VObj [("videoId", VStr "dQw4w9WgXcQ")])).
  reflexivity.
Defined.

(** The requests of a call, by how [initialize] ends. *)
Lemma run_call_requests (w : Comment.world) (c : Comment.call)
    (this this' : Comment.CommentService) (tr : list Comment.event)
    (r : result value) :
  Comment.run_call w c this = (this', tr, r) →
  (length (Comment.requests tr) ≤ 1)%nat ∧
  ((∃ v, r = Ok v) → length (Comment.requests tr) = 1%nat) ∧
  (∀ e, Comment.initialize w this = (this', [], Throw e) →
     Comment.requests tr = []).
Proof.
  destruct c as [a|a]; simpl;
    unfold Comment.getVideoComments, Comment.getCommentReplies,
      Comment.try_catch, mbind, Comment.Eff_bind,
      Comment.call_commentThreads_list, Comment.call_comments_list,
      Comment.lift, Comment.throw, mret, Comment.Eff_ret;
    destruct (Comment.initialize w this) as [[this1 tr1] [[]|e1]] eqn:Hinit;
    apply initialize_trace in Hinit as [Hreq _];
    intros H.
  all: repeat case_match; simplify_eq.
  all: unfold Comment.requests in *; rewrite ?List.filter_app, ?Hreq; simpl.
  all: split; [lia|]; split;
    [intros [v Hv]; try discriminate; reflexivity | intros e' He'; try discriminate; reflexivity].
Qed.

(** X2. An operation never sends more than one upstream request (it
    does not retry and does not fetch further pages); a call that
    returns a value has sent exactly one, and a call that finds the key
    missing sends none. *)
Theorem X2_one_request_per_call (w : Comment.world) (c : Comment.call)
    (this this' : Comment.CommentService) (tr : list Comment.event)
    (r : result value) :
  Comment.run_call w c this = (this', tr, r) →
  (length (Comment.requests tr) ≤ 1)%nat ∧
  ((∃ v, r = Ok v) → length (Comment.requests tr) = 1%nat) ∧
  (∀ e, Comment.initialize w this = (this', [], Throw e) →
     Comment.requests tr = []).
Proof. apply run_call_requests. Qed.

Lemma X2_one_request_per_call_witness :
  (length (Comment.requests
     (Comment.run_call answering (Comment.GetVideoComments video_args)
        Comment.new_CommentService).1.2) = 1)%nat ∧
  Comment.requests
    (Comment.run_call without_key (Comment.GetCommentReplies replies_args)
       Comment.new_CommentService).1.2 = [].
Proof.
  split.
  - destruct (Comment.run_call answering (Comment.GetVideoComments video_args)
                Comment.new_CommentService) as [[this' tr] r] eqn:H.
    destruct (X2_one_request_per_call _ _ _ _ _ _ H) as [_ [Hone _]].
    apply Hone. vm_compute in H. injection H as _ _ <-. eexists. reflexivity.
  - destruct (Comment.run_call without_key
                (Comment.GetCommentReplies replies_args)
                Comment.new_CommentService) as [[this' tr] r] eqn:H.
    destruct (X2_one_request_per_call _ _ _ _ _ _ H) as [_ [_ Hnone]].
    vm_compute in H. injection H as <- <- <-.
    apply (Hnone (JsError "YOUTUBE_API_KEY environment variable is not set.")).
    reflexivity.
Defined.

(** A service object is in order when it is initialized exactly when it
    holds a client. *)
Lemma run_call_in_order (w : Comment.world) (c : Comment.call)
    (this this' : Comment.CommentService) (tr : list Comment.event)
    (r : result value) :
  Comment.run_call w c this = (this', tr, r) →
  (Comment.initialized this = true ↔ is_Some (Comment.youtube this)) →
  (Comment.initialized this' = true ↔ is_Some (Comment.youtube this')).
Proof.
  intros H Hord.
  destruct (run_call_initialize w c this this' tr r H)
    as [tr1 [r1 [tr2 [Hinit _]]]].
  unfold Comment.initialize in Hinit.
  destruct (Comment.initialized this) eqn:Hi.
  - injection Hinit as <- _ _. rewrite Hi. exact Hord.
  - destruct (Comment.YOUTUBE_API_KEY w) as [k|].
    + destruct (negb (truthy (VStr k))); injection Hinit as <- _ _.
      * rewrite Hi. exact Hord.
      * simpl. split; [eauto | reflexivity].
    + injection Hinit as <- _ _. rewrite Hi. exact Hord.
Qed.

(** X3. However a new service object is used, it is initialized
    exactly when it holds a client; and once a service is initialized no
    call changes it: the client built from the key found first is kept,
    whatever the environment holds later. *)
Theorem X3_client_is_kept :
  (∀ calls,
     Comment.initialized (Comment.run_calls calls Comment.new_CommentService).1
       = true ↔
     is_Some (Comment.youtube
                (Comment.run_calls calls Comment.new_CommentService).1)) ∧
  (∀ calls this,
     Comment.initialized this = true →
     (Comment.run_calls calls this).1 = this).
Proof.
  split.
  - intros calls.
    assert (∀ this,
      (Comment.initialized this = true ↔ is_Some (Comment.youtube this)) →
      (Comment.initialized (Comment.run_calls calls this).1 = true ↔
       is_Some (Comment.youtube (Comment.run_calls calls this).1))) as Hgen.
    { induction calls as [|[w c] calls IH]; intros this Hord; [exact Hord|].
      simpl.
      destruct (Comment.run_call w c this) as [[this1 tr] r] eqn:Hcall.
      specialize (IH this1 (run_call_in_order w c this this1 tr r Hcall Hord)).
      destruct (Comment.run_calls calls this1) as [this2 tr']. exact IH. }
    apply Hgen. simpl. split; [discriminate | intros [c Hc]; discriminate].
  - intros calls. induction calls as [|[w c] calls IH]; intros this Hi;
      [reflexivity|].
    simpl.
    destruct (Comment.run_call w c this) as [[this1 tr] r] eqn:Hcall.
    apply run_call_constructions in Hcall. rewrite Hi in Hcall.
    destruct Hcall as [-> _].
    specialize (IH this Hi).
    destruct (Comment.run_calls calls this) as [this2 tr']. exact IH.
Qed.

Lemma X3_client_is_kept_witness :
  Comment.initialized ready_service = true ∧
  (Comment.run_calls
     [(without_key, Comment.GetVideoComments video_args);
      (rejecting, Comment.GetCommentReplies replies_args)]
     ready_service).1 = ready_service.
Proof.
  split; [reflexivity|].
  apply (proj2 X3_client_is_kept). reflexivity.
Defined.

(** [map] ends with the exception of the first element its callback
    cannot read. *)
Lemma Array_map_first_failure (name : string) (f : value → result value)
    (xs ys : list value) (r : value) (e : thrown) :
  (∀ x, is_object x → ∃ o, f x = Ok o) →
  Forall (λ x, is_object x) xs →
  f r = Throw e →
  Array_map name f (VArr (xs ++ r :: ys)) = Throw e.
Proof.
  intros Hf Hxs Hr. simpl. rewrite mapM_result_app.
  destruct (mapM_result_total f (λ x, is_object x) xs Hf Hxs) as [out [-> _]].
  simpl. rewrite Hr. reflexivity.
Qed.

Section Unreadable.
Import Comment.

Variables (w : world) (this this' : CommentService) (tr0 : list event)
          (c : client).
Hypothesis Hinit : initialize w this = (this', tr0, Ok ()).
Hypothesis Hclient : youtube this' = Some c.

(** What the operations make of a response whose [items] the projection
    rejects. *)
Lemma getVideoComments_unreadable (a : VideoCommentsParams)
    (response data : value) (e : thrown) :
  commentThreads_list w c (commentThreads_request a) = Ok response →
  get_prop response "data" = Ok data →
  nullish data = false →
  extractEssentialComments (or_ (member data "items") (VArr [])) = Throw e →
  getVideoComments w a this =
    (this', tr0 ++ [CommentThreadsList c (commentThreads_request a)],
     Throw (JsError ("Failed to get comments: " +:+ error_message e))).
Proof.
  intros Hr Hd Hn He.
  unfold getVideoComments, try_catch, mbind, Eff_bind,
    call_commentThreads_list, lift.
  rewrite Hinit, Hclient, Hr, Hd. unfold get_prop. rewrite Hn, He.
  unfold throw. rewrite !app_nil_r. reflexivity.
Qed.

Lemma getCommentReplies_unreadable (a : CommentRepliesParams)
    (response data : value) (e : thrown) :
  comments_list w c (comments_request a) = Ok response →
  get_prop response "data" = Ok data →
  nullish data = false →
  extractEssentialReplies (or_ (member data "items") (VArr [])) = Throw e →
  getCommentReplies w a this =
    (this', tr0 ++ [CommentsList c (comments_request a)],
     Throw (JsError ("Failed to get replies: " +:+ error_message e))).
Proof.
  intros Hr Hd Hn He.
  unfold getCommentReplies, try_catch, mbind, Eff_bind,
    call_comments_list, lift.
  rewrite Hinit, Hclient, Hr, Hd. unfold get_prop. rewrite Hn, He.
  unfold throw. rewrite !app_nil_r. reflexivity.
Qed.
End Unreadable.

(** X4. The projections guard against a missing [snippet], not against
    a missing record: when the upstream list holds a [null] or
    [undefined] element after some records, the whole operation fails
    with the wrapped [TypeError] of reading [snippet] from it, and none
    of the records before or after it is returned. *)
Theorem X4_null_item_fails_the_call (w : Comment.world)
    (this this' : Comment.CommentService) (tr0 : list Comment.event)
    (c : Comment.client) (response data : value) (xs ys : list value)
    (r : value) :
  Comment.initialize w this = (this', tr0, Ok ()) →
  Comment.youtube this' = Some c →
  get_prop response "data" = Ok data →
  member data "items" = VArr (xs ++ r :: ys) →
  Forall (λ x, is_object x) xs →
  nullish r →
  (∀ a, Comment.commentThreads_list w c (Comment.commentThreads_request a)
        = Ok response →
     Comment.getVideoComments w a this =
       (this', tr0 ++ [Comment.CommentThreadsList c (Comment.commentThreads_request a)],
        Throw (JsError ("Failed to get comments: Cannot read properties of "
                        +:+ nullish_name r +:+ " (reading 'snippet')")))) ∧
  (∀ a, Comment.comments_list w c (Comment.comments_request a) = Ok response →
     Comment.getCommentReplies w a this =
       (this', tr0 ++ [Comment.CommentsList c (Comment.comments_request a)],
        Throw (JsError ("Failed to get replies: Cannot read properties of "
                        +:+ nullish_name r +:+ " (reading 'snippet')")))).
Proof.
  intros Hinit Hclient Hdata Hitems Hxs Hr.
  assert (nullish data = false) as Hn.
  { destruct data; try reflexivity; discriminate. }
  apply Is_true_true in Hr.
  split; intros a Hresp.
  - rewrite (getVideoComments_unreadable w this this' tr0 c Hinit Hclient a
               response data (TypeError_read r "snippet") Hresp Hdata Hn);
      [reflexivity|].
    rewrite Hitems. change (or_ (VArr ?l) (VArr [])) with (VArr l).
    apply Array_map_first_failure;
      [exact essential_comment_returns | exact Hxs |].
    unfold Comment.essential_comment, get_prop. rewrite Hr. reflexivity.
  - rewrite (getCommentReplies_unreadable w this this' tr0 c Hinit Hclient a
               response data (TypeError_read r "snippet") Hresp Hdata Hn);
      [reflexivity|].
    rewrite Hitems. change (or_ (VArr ?l) (VArr [])) with (VArr l).
    apply Array_map_first_failure;
      [exact essential_reply_returns | exact Hxs |].
    unfold Comment.essential_reply, get_prop. rewrite Hr. reflexivity.
Qed.

Lemma X4_null_item_fails_the_call_witness :
  Comment.getVideoComments answering_holed video_args ready_service =
    (ready_service,
     [] ++ [Comment.CommentThreadsList the_client
              (Comment.commentThreads_request video_args)],
     Throw (JsError "Failed to get comments: Cannot read properties of null (reading 'snippet')")) ∧
  Comment.getCommentReplies answering_holed replies_args ready_service =
    (ready_service,
     [] ++ [Comment.CommentsList the_client
              (Comment.comments_request replies_args)],
     Throw (JsError "Failed to get replies: Cannot read properties of null (reading 'snippet')")).
Proof.
  destruct (X4_null_item_fails_the_call answering_holed ready_service
              ready_service [] the_client holed_response
              (VObj [("items", VArr [thread 0; VNull; thread 2]);
                     ("pageInfo", page_info)])
              [thread 0] [thread 2] VNull) as [H1 H2];
    [reflexivity | reflexivity | reflexivity | reflexivity
    | repeat constructor | exact I |].
  split.
  - apply (H1 video_args). reflexivity.
  - apply (H2 replies_args). reflexivity.
Defined.

(** ** The test script's projection after the service's *)

Lemma test_projection_of_projected (p t : value) :
  CommentsTest.essential_comment (VObj [("parentId", p); ("text", t)]) =
  Ok (if truthy p && truthy t
      then VObj [("parentId", p); ("text", t)]
      else VObj [("parentId", VUndefined); ("text", VStr "")]).
Proof.
  unfold CommentsTest.essential_comment, CommentsTest.and_, CommentsTest.not_.
  unfold get_prop, mbind, result_bind. cbn.
  destruct (truthy p) eqn:Hp; rewrite ?Hp;
    [destruct (truthy t) eqn:Ht; rewrite ?Ht|]; reflexivity.
Qed.

Lemma service_projection_fields (r o : value) :
  Comment.essential_comment r = Ok o →
  ∃ p t, o = VObj [("parentId", p); ("text", t)].
Proof.
  unfold Comment.essential_comment, get_prop.
  destruct (nullish r); simpl; [discriminate|].
  intros [= <-]. eauto.
Qed.

(** X5. The test script runs its own projection over what the service
    returned. On any result of the service this second projection
    returns, with as many records; it keeps a record whose [parentId]
    and [text] are both truthy, and replaces any other (a comment with
    an empty text, say) by [{parentId: undefined, text: ''}]. *)
Theorem X5_test_projection_after_service (rs out : list value) :
  Comment.extractEssentialComments (VArr rs) = Ok (VArr out) →
  ∃ out',
    CommentsTest.extractEssentialComments (VArr out) = Ok (VArr out') ∧
    length out' = length rs ∧
    Forall2 (λ o o',
      o' = if truthy (member o "parentId") && truthy (member o "text")
           then o
           else VObj [("parentId", VUndefined); ("text", VStr "")]) out out'.
Proof.
  simpl. destruct (mapM Comment.essential_comment rs) as [out0|] eqn:Hm;
    simpl; [|discriminate].
  intros [= ->]. apply mapM_result_Forall2 in Hm.
  assert (∃ out',
    mapM CommentsTest.essential_comment out = Ok out' ∧
    Forall2 (λ o o',
      o' = if truthy (member o "parentId") && truthy (member o "text")
           then o
           else VObj [("parentId", VUndefined); ("text", VStr "")]) out out')
    as [out' [H1 H2]].
  { induction Hm as [|r o rs out Hro _ [out' [H1 H2]]].
    - exists []. split; [reflexivity | constructor].
    - destruct (service_projection_fields r o Hro) as [p [t ->]].
      eexists (_ :: out'). split.
      + simpl mapM. rewrite test_projection_of_projected. simpl.
        rewrite H1. reflexivity.
      + constructor; [reflexivity | exact H2]. }
  exists out'. rewrite H1. split; [reflexivity|]. split; [|exact H2].
  rewrite (Forall2_length _ _ _ Hm). symmetry. eapply Forall2_length, H2.
Qed.

Lemma X5_test_projection_after_service_witness :
  Comment.extractEssentialComments (VArr [thread 1; empty_text_thread]) =
    Ok (VArr [VObj [("parentId", VStr "thread1"); ("text", VStr "comment 1")];
              VObj [("parentId", VStr "t4"); ("text", VStr "")]]) ∧
  CommentsTest.extractEssentialComments
    (VArr [VObj [("parentId", VStr "thread1"); ("text", VStr "comment 1")];
           VObj [("parentId", VStr "t4"); ("text", VStr "")]]) =
    Ok (VArr [VObj [("parentId", VStr "thread1"); ("text", VStr "comment 1")];
              VObj [("parentId", VUndefined); ("text", VStr "")]]).
Proof.
  split; [reflexivity|].
  destruct (X5_test_projection_after_service
              [thread 1; empty_text_thread]
              [VObj [("parentId", VStr "thread1"); ("text", VStr "comment 1")];
               VObj [("parentId", VStr "t4"); ("text", VStr "")]]
              eq_refl) as [out' [H1 [_ H2]]].
  rewrite H1. f_equal. f_equal.
  inversion H2 as [|o1 o1' l1 l1' E1 T1]; subst.
  inversion T1 as [|o2 o2' l2 l2' E2 T2]; subst.
  inversion T2; subst. reflexivity.
Defined.

(** ** [extractVideoId] *)

Section VideoId.
Import TestScript.

Lemma all_id_chars_app (s t : string) :
  all_id_chars (s +:+ t) = all_id_chars s && all_id_chars t.
Proof.
  induction s as [|c s IH]; simpl; [reflexivity|].
  rewrite IH. apply andb_assoc.
Qed.

Lemma string_length_app (s t : string) :
  String.length (s +:+ t) = (String.length s + String.length t)%nat.
Proof. induction s as [|c s IH]; simpl; [reflexivity | f_equal; exact IH]. Qed.

Lemma string_app_assoc (s t u : string) : (s +:+ t) +:+ u = s +:+ (t +:+ u).
Proof.
  induction s as [|c s IH]; [reflexivity|].
  change (String c ((s +:+ t) +:+ u) = String c (s +:+ (t +:+ u))).
  f_equal. exact IH.
Qed.

Lemma string_app_empty (s : string) : s +:+ "" = s.
Proof.
  induction s as [|c s IH]; [reflexivity|].
  change (String c (s +:+ "") = String c s). f_equal. exact IH.
Qed.

Lemma id_chars_sound (n : nat) (s v rest : string) :
  id_chars n s = Some (v, rest) →
  s = v +:+ rest ∧ String.length v = n ∧ all_id_chars v = true.
Proof.
  revert s v rest. induction n as [|n IH]; simpl; intros s v rest H.
  - injection H as <- <-. repeat split.
  - destruct s as [|c s]; [discriminate|].
    destruct (id_char c) eqn:Hc; [|discriminate].
    destruct (id_chars n s) as [[v' rest']|] eqn:Hn; [|discriminate].
    injection H as <- <-.
    destruct (IH s v' rest' Hn) as [-> [<- Hall]].
    simpl. rewrite Hc, Hall. repeat split.
Qed.

Lemma id_chars_complete (v rest : string) :
  all_id_chars v = true →
  id_chars (String.length v) (v +:+ rest) = Some (v, rest).
Proof.
  induction v as [|c v IH]; simpl; intros H; [reflexivity|].
  apply andb_true_iff in H as [Hc Hv].
  rewrite Hc, (IH Hv). reflexivity.
Qed.

Lemma literal_sound (p s rest : string) :
  literal p s = Some rest → s = p +:+ rest.
Proof.
  revert s. induction p as [|a p IH]; simpl; intros s H.
  - injection H as ->. reflexivity.
  - destruct s as [|b s]; [discriminate|].
    destruct (Ascii.eqb a b) eqn:Hab; [|discriminate].
    apply Ascii.eqb_eq in Hab as ->. rewrite (IH s H). reflexivity.
Qed.

Lemma literal_complete (p rest : string) : literal p (p +:+ rest) = Some rest.
Proof.
  induction p as [|a p IH]; simpl; [reflexivity|].
  rewrite Ascii.eqb_refl. exact IH.
Qed.

Lemma alternative_sound (p s v : string) :
  alternative p s = Some v →
  valid_id v ∧ ∃ suf, s = p +:+ v +:+ suf.
Proof.
  unfold alternative.
  destruct (literal p s) as [rest|] eqn:Hl; [|discriminate].
  destruct (id_chars 11 rest) as [[v' suf]|] eqn:Hi; [|discriminate].
  intros [= <-].
  apply literal_sound in Hl as ->.
  apply id_chars_sound in Hi as [-> [Hlen Hall]].
  split; [split; assumption|]. exists suf. reflexivity.
Qed.

Lemma alternative_complete (p v suf : string) :
  valid_id v → alternative p (p +:+ v +:+ suf) = Some v.
Proof.
  intros [Hlen Hall]. unfold alternative.
  rewrite literal_complete, <- Hlen, (id_chars_complete v suf Hall).
  reflexivity.
Qed.

Lemma url_pattern_here_sound (s v : string) :
  url_pattern_here s = Some v →
  valid_id v ∧ ∃ p suf, s = p +:+ v +:+ suf.
Proof.
  unfold url_pattern_here.
  destruct (alternative "youtube.com/watch?v=" s) as [v1|] eqn:H1.
  { intros [= <-]. apply alternative_sound in H1 as [Hv [suf ->]]. eauto. }
  destruct (alternative "youtu.be/" s) as [v2|] eqn:H2.
  { intros [= <-]. apply alternative_sound in H2 as [Hv [suf ->]]. eauto. }
  intros H3. apply alternative_sound in H3 as [Hv [suf ->]]. eauto.
Qed.

Lemma match_url_pattern_sound (s v : string) :
  match_url_pattern s = Some v →
  valid_id v ∧ ∃ pre suf, s = pre +:+ v +:+ suf.
Proof.
  induction s as [|c s IH]; simpl.
  - discriminate.
  - destruct (url_pattern_here (String c s)) as [v'|] eqn:H.
    + intros [= ->]. apply (url_pattern_here_sound _ v H).
    + intros Hm. destruct (IH Hm) as [Hv [pre [suf ->]]].
      split; [exact Hv|]. exists (String c pre), suf. reflexivity.
Qed.

Lemma match_id_pattern_sound (s v : string) :
  match_id_pattern s = Some v → valid_id v ∧ s = v.
Proof.
  unfold match_id_pattern.
  destruct (id_chars 11 s) as [[v' [|c rest]]|] eqn:H; try discriminate.
  intros [= <-]. apply id_chars_sound in H as [-> [Hlen Hall]].
  split; [split; assumption|]. apply string_app_empty.
Qed.

(** No alternative of the URL pattern starts inside a text made of id
    characters: each has a dot among its first eight characters. *)
Lemma alternative_needs_other_chars (p s : string) :
  all_id_chars p = false → all_id_chars s = true → alternative p s = None.
Proof.
  intros Hp Hs. unfold alternative.
  destruct (literal p s) as [rest|] eqn:Hl; [|reflexivity].
  apply literal_sound in Hl as ->.
  rewrite all_id_chars_app, Hp in Hs. discriminate.
Qed.

Lemma match_url_pattern_id_chars (s : string) :
  all_id_chars s = true → match_url_pattern s = None.
Proof.
  assert (∀ t, all_id_chars t = true → url_pattern_here t = None) as Hhere.
  { intros t Ht. unfold url_pattern_here.
    rewrite !(alternative_needs_other_chars _ t) by (reflexivity || exact Ht).
    reflexivity. }
  induction s as [|c s IH]; simpl; intros H.
  - reflexivity.
  - rewrite (Hhere (String c s) H).
    apply andb_true_iff in H as [_ H]. exact (IH H).
Qed.

Lemma extractVideoId_bare (v : string) :
  valid_id v → extractVideoId v = Ok v.
Proof.
  intros [Hlen Hall]. unfold extractVideoId, patterns, first_match.
  rewrite (match_url_pattern_id_chars v Hall).
  unfold match_id_pattern.
  assert (id_chars 11 v = Some (v, "")) as ->.
  { rewrite <- Hlen.
    rewrite <- (string_app_empty v) at 2.
    apply id_chars_complete, Hall. }
  destruct v as [|c v]; [discriminate Hlen|]. reflexivity.
Qed.

Lemma extractVideoId_sound (url v : string) :
  extractVideoId url = Ok v →
  valid_id v ∧ ∃ pre suf, url = pre +:+ v +:+ suf.
Proof.
  unfold extractVideoId, patterns, first_match.
  destruct (match_url_pattern url) as [g|] eqn:H1.
  - apply match_url_pattern_sound in H1 as [Hv Hsub].
    assert (truthy (VStr g) = true) as ->.
    { destruct Hv as [Hlen _]. destruct g; [discriminate Hlen | reflexivity]. }
    intros [= <-]. split; assumption.
  - destruct (match_id_pattern url) as [g|] eqn:H2; [|discriminate].
    apply match_id_pattern_sound in H2 as [Hv ->].
    assert (truthy (VStr g) = true) as ->.
    { destruct Hv as [Hlen _]. destruct g; [discriminate Hlen | reflexivity]. }
    intros [= <-]. split; [exact Hv|]. exists "", "".
    simpl. symmetry. apply string_app_empty.
Qed.
End VideoId.

(** X6. [extractVideoId] never returns anything but a well-formed id
    taken from its argument: eleven characters of [[a-zA-Z0-9_-]] that
    stand in the URL. *)
Theorem X6_extractVideoId_sound (url v : string) :
  TestScript.extractVideoId url = Ok v →
  valid_id v ∧ ∃ pre suf, url = pre +:+ v +:+ suf.
Proof. apply extractVideoId_sound. Qed.

Lemma X6_extractVideoId_sound_witness :
  TestScript.extractVideoId "https://youtu.be/dQw4w9WgXcQ?t=42" = Ok "dQw4w9WgXcQ" ∧
  valid_id "dQw4w9WgXcQ" ∧
  ∃ pre suf, "https://youtu.be/dQw4w9WgXcQ?t=42" = pre +:+ "dQw4w9WgXcQ" +:+ suf.
Proof.
  split; [reflexivity|].
  apply (X6_extractVideoId_sound "https://youtu.be/dQw4w9WgXcQ?t=42").
  reflexivity.
Defined.

(** X7. A bare well-formed id is accepted as it is, so that
    [extractVideoId] is idempotent: what it returns for a URL it returns
    again for its own result. *)
Theorem X7_extractVideoId_idempotent :
  (∀ v, valid_id v → TestScript.extractVideoId v = Ok v) ∧
  (∀ url v, TestScript.extractVideoId url = Ok v →
            TestScript.extractVideoId v = Ok v).
Proof.
  split.
  - exact extractVideoId_bare.
  - intros url v H. apply extractVideoId_bare.
    exact (proj1 (extractVideoId_sound url v H)).
Qed.

Lemma X7_extractVideoId_idempotent_witness :
  valid_id "dQw4w9WgXcQ" ∧
  TestScript.extractVideoId "dQw4w9WgXcQ" = Ok "dQw4w9WgXcQ" ∧
  TestScript.extractVideoId "https://www.youtube.com/embed/a-b_c-d_e-f" =
    Ok "a-b_c-d_e-f" ∧
  TestScript.extractVideoId "a-b_c-d_e-f" = Ok "a-b_c-d_e-f".
Proof.
  destruct X7_extractVideoId_idempotent as [H1 H2].
  split; [split; reflexivity|].
  split; [apply H1; split; reflexivity|].
  split; [reflexivity|].
  apply (H2 "https://www.youtube.com/embed/a-b_c-d_e-f"). reflexivity.
Defined.

Lemma match_url_pattern_skips (head rest : string) :
  no_y head = true →
  TestScript.match_url_pattern (head +:+ rest) = TestScript.match_url_pattern rest.
Proof.
  induction head as [|c head IH]; intros H; [reflexivity|].
  simpl in H. apply andb_true_iff in H as [Hc Hh].
  apply negb_true_iff in Hc.
  change (String c head +:+ rest) with (String c (head +:+ rest)).
  simpl. unfold TestScript.url_pattern_here, TestScript.alternative. simpl.
  change (Ascii.Ascii true false false true true true true false)
    with (Ascii.ascii_of_nat 121).
  rewrite Hc. exact (IH Hh).
Qed.

Lemma match_url_pattern_found (rest v : string) :
  TestScript.url_pattern_here rest = Some v →
  TestScript.match_url_pattern rest = Some v.
Proof.
  intros H. destruct rest as [|c rest]; [discriminate H|].
  cbn [TestScript.match_url_pattern]. rewrite H. reflexivity.
Qed.

Lemma extractVideoId_of_match (url v : string) :
  valid_id v →
  TestScript.match_url_pattern url = Some v →
  TestScript.extractVideoId url = Ok v.
Proof.
  intros [Hlen _] H.
  unfold TestScript.extractVideoId, TestScript.patterns, TestScript.first_match.
  rewrite H. destruct v; [discriminate Hlen | reflexivity].
Qed.

(** X8. The three URL forms are recognised: after any text without the
    letter [y] (a scheme and host prefix such as [https://www.] or
    [https://m.]), one of [youtube.com/watch?v=], [youtu.be/] and
    [youtube.com/embed/] followed by a well-formed id yields that id,
    whatever follows it (a query string, or further id characters). *)
Theorem X8_extractVideoId_url_forms (head v tail : string) :
  no_y head = true →
  valid_id v →
  TestScript.extractVideoId (head +:+ "youtube.com/watch?v=" +:+ v +:+ tail) = Ok v ∧
  TestScript.extractVideoId (head +:+ "youtu.be/" +:+ v +:+ tail) = Ok v ∧
  TestScript.extractVideoId (head +:+ "youtube.com/embed/" +:+ v +:+ tail) = Ok v.
Proof.
  intros Hh Hv.
  assert (∀ p, TestScript.alternative p (p +:+ v +:+ tail) = Some v) as Halt.
  { intros p. apply alternative_complete, Hv. }
  repeat split; apply (extractVideoId_of_match _ v Hv);
    rewrite (match_url_pattern_skips head _ Hh);
    apply match_url_pattern_found; unfold TestScript.url_pattern_here.
  - rewrite Halt. reflexivity.
  - rewrite Halt. reflexivity.
  - rewrite Halt. reflexivity.
Qed.

Lemma X8_extractVideoId_url_forms_witness :
  no_y "https://www." = true ∧ valid_id "dQw4w9WgXcQ" ∧
  TestScript.extractVideoId
    ("https://www." +:+ "youtube.com/watch?v=" +:+ "dQw4w9WgXcQ" +:+ "&t=10s")
  = Ok "dQw4w9WgXcQ" ∧
  TestScript.extractVideoId
    ("https://www." +:+ "youtu.be/" +:+ "dQw4w9WgXcQ" +:+ "&t=10s")
  = Ok "dQw4w9WgXcQ" ∧
  TestScript.extractVideoId
    ("https://www." +:+ "youtube.com/embed/" +:+ "dQw4w9WgXcQ" +:+ "&t=10s")
  = Ok "dQw4w9WgXcQ".
Proof.
  split; [reflexivity|]. split; [split; reflexivity|].
  apply (X8_extractVideoId_url_forms "https://www." "dQw4w9WgXcQ" "&t=10s");
    [reflexivity | split; reflexivity].
Defined.

(** X9. What [extractVideoId] rejects, with its one error: any text
    shorter than eleven characters, and any text of id characters only
    whose length is not eleven (an id with a character too many is no
    id, though behind a URL prefix its first eleven would be taken). *)
Theorem X9_extractVideoId_rejects (url : string) :
  (String.length url < 11)%nat ∨
  (all_id_chars url = true ∧ String.length url ≠ 11%nat) →
  TestScript.extractVideoId url = Throw (JsError TestScript.invalid_url_message).
Proof.
  intros H.
  destruct (TestScript.extractVideoId url) as [v|e] eqn:Hx.
  - exfalso. destruct (extractVideoId_sound url v Hx) as [[Hlen Hall] [pre [suf ->]]].
    destruct H as [H | [Hids Hne]].
    + rewrite !string_length_app in H. lia.
    + revert Hx. unfold TestScript.extractVideoId, TestScript.patterns,
        TestScript.first_match.
      rewrite (match_url_pattern_id_chars _ Hids).
      destruct (TestScript.match_id_pattern (pre +:+ v +:+ suf)) as [g|] eqn:Hg;
        [|discriminate].
      apply match_id_pattern_sound in Hg as [[Hg _] Heq].
      rewrite Heq in Hne. contradiction.
  - revert Hx. unfold TestScript.extractVideoId.
    destruct (TestScript.first_match TestScript.patterns url); [discriminate|].
    intros [= <-]. reflexivity.
Qed.

Lemma X9_extractVideoId_rejects_witness :
  (all_id_chars "dQw4w9WgXcQx" = true ∧ String.length "dQw4w9WgXcQx" ≠ 11%nat) ∧
  TestScript.extractVideoId "dQw4w9WgXcQx" =
    Throw (JsError TestScript.invalid_url_message) ∧
  TestScript.extractVideoId "youtu.be/dQw4w9WgXcQx" = Ok "dQw4w9WgXcQ".
Proof.
  split; [split; [reflexivity | discriminate]|].
  split; [|reflexivity].
  apply (X9_extractVideoId_rejects "dQw4w9WgXcQx").
  right. split; [reflexivity | discriminate].
Defined.

(** ** [formatComment] *)

(** X10. On a record that the service's projection produced,
    [formatComment] never takes its fallback for the full API shape: it
    prints the optimized block when [parentId] and [text] are both
    truthy, and otherwise (a comment with an empty text, say) it prints
    nothing at all. *)
Theorem X10_formatComment_of_projected (r o index : value) :
  Comment.essential_comment r = Ok o →
  TestScript.formatComment o index =
    Ok (if truthy (member o "parentId") && truthy (member o "text")
        then TestScript.optimized_block index (member o "parentId")
               (member o "text")
        else "").
Proof.
  intros H. destruct (service_projection_fields r o H) as [p [t ->]].
  unfold TestScript.formatComment, CommentsTest.and_, get_prop, mbind,
    result_bind. cbn.
  destruct (truthy p) eqn:Hp; rewrite ?Hp;
    [destruct (truthy t) eqn:Ht; rewrite ?Ht|]; reflexivity.
Qed.

Lemma X10_formatComment_of_projected_witness :
  Comment.essential_comment (thread 7) =
    Ok (VObj [("parentId", VStr "thread7"); ("text", VStr "comment 7")]) ∧
  TestScript.formatComment
    (VObj [("parentId", VStr "thread7"); ("text", VStr "comment 7")])
    (VNum (Int 1)) =
    Ok (TestScript.optimized_block (VNum (Int 1)) (VStr "thread7")
          (VStr "comment 7")) ∧
  Comment.essential_comment empty_text_thread =
    Ok (VObj [("parentId", VStr "t4"); ("text", VStr "")]) ∧
  TestScript.formatComment (VObj [("parentId", VStr "t4"); ("text", VStr "")])
    (VNum (Int 2)) = Ok "".
Proof.
  split; [reflexivity|]. split.
  - exact (X10_formatComment_of_projected (thread 7)
             (VObj [("parentId", VStr "thread7"); ("text", VStr "comment 7")])
             (VNum (Int 1)) eq_refl).
  - split; [reflexivity|].
    exact (X10_formatComment_of_projected empty_text_thread
             (VObj [("parentId", VStr "t4"); ("text", VStr "")])
             (VNum (Int 2)) eq_refl).
Defined.

(** ** [ThumbnailManager] *)


Lemma drawn_app (tr tr' : list Thumbnail.event) :
  Thumbnail.drawn (tr ++ tr') = Thumbnail.drawn tr ++ Thumbnail.drawn tr'.
Proof. unfold Thumbnail.drawn. apply omap_app. Qed.



(** X12. With one of the four known styles, a call that succeeds has
    drawn the title last, over the background and the effects of the
    style: the last drawing operation is [fillText(title, 50, y)], with
    [y] 150 for [news] and 650 otherwise. *)
Theorem X12_title_is_drawn_last (w : Thumbnail.world)
    (a : Thumbnail.GenerateParams) (tr : list Thumbnail.event) (p : string) :
  let style := default_to (VStr "vlog") (Thumbnail.style a) in
  Thumbnail.known_style style = true →
  Thumbnail.generateThumbnail w a = (tr, Ok p) →
  last (Thumbnail.drawn tr) =
    Some (Thumbnail.Invoke "fillText"
            [Thumbnail.AVal (Thumbnail.title a); Thumbnail.num 50;
             Thumbnail.num (if Thumbnail.style_is style "news" then 150 else 650)]).
Proof.
  intros style Hk. subst style.
  unfold Thumbnail.generateThumbnail, Thumbnail.applyStyleEffects,
    Thumbnail.addStyledText, Thumbnail.getStyleBackground.
  unfold Thumbnail.known_style in Hk.
  set (style := default_to (VStr "vlog") (Thumbnail.style a)) in *.
  assert (Thumbnail.style_is style "gaming" = true →
          Thumbnail.style_is style "news" = false) as Hg.
  { destruct style; simpl; try discriminate.
    intros H. apply String.eqb_eq in H as ->. reflexivity. }
  assert (Thumbnail.style_is style "vlog" = true →
          Thumbnail.style_is style "news" = false) as Hv.
  { destruct style; simpl; try discriminate.
    intros H. apply String.eqb_eq in H as ->. reflexivity. }
  assert (Thumbnail.style_is style "tutorial" = true →
          Thumbnail.style_is style "news" = false) as Ht.
  { destruct style; simpl; try discriminate.
    intros H. apply String.eqb_eq in H as ->. reflexivity. }
  unfold Thumbnail.try_catch, mbind, Thumbnail.Run_bind, Thumbnail.emit,
    Thumbnail.await, mret, Thumbnail.Run_ret.
  destruct (Thumbnail.style_is style "gaming") eqn:H1;
    [rewrite (Hg eq_refl)|
     destruct (Thumbnail.style_is style "vlog") eqn:H2;
       [rewrite (Hv eq_refl)|
        destruct (Thumbnail.style_is style "tutorial") eqn:H3;
          [rewrite (Ht eq_refl)|
           destruct (Thumbnail.style_is style "news") eqn:H4;
             [|discriminate Hk]]]].
  all: destruct (truthy (Thumbnail.imageUrl a));
    [destruct (Thumbnail.loadImage w (Thumbnail.imageUrl a)) as [[]|e]|].
  all: repeat case_match; simplify_eq; intros [= <- <-]; reflexivity.
Qed.

Lemma X12_title_is_drawn_last_witness :
  Thumbnail.known_style
    (default_to (VStr "vlog") (Thumbnail.style news_args)) = true ∧
  (Thumbnail.generateThumbnail studio news_args).2 =
    Ok "/srv/thumbnails/thumbnail-1700000000000.png" ∧
  last (Thumbnail.drawn (Thumbnail.generateThumbnail studio news_args).1) =
    Some (Thumbnail.Invoke "fillText"
            [Thumbnail.AVal (VStr "My video"); Thumbnail.num 50;
             Thumbnail.num 150]).
Proof.
  split; [reflexivity|]. split; [reflexivity|].
  apply (X12_title_is_drawn_last studio news_args _
           "/srv/thumbnails/thumbnail-1700000000000.png");
    reflexivity.
Defined.

Lemma drawing_leaves_the_disk (ops : list Thumbnail.ctx_op) :
  List.filter touches_disk (Thumbnail.Ctx <$> ops) = [].
Proof. induction ops as [|op ops IH]; [reflexivity | exact IH]. Qed.

(** X13. A call that returns a path has painted a canvas of 1280 by
    720, and has touched the disk twice: it made the directory
    [thumbnails] under the working directory (recursively, so an
    existing one is no error) and then wrote one file there, named
    after the clock, whose path is the one it returns. *)
Theorem X13_returns_the_file_written (w : Thumbnail.world)
    (a : Thumbnail.GenerateParams) (tr : list Thumbnail.event) (p : string) :
  Thumbnail.generateThumbnail w a = (tr, Ok p) →
  let dir := Thumbnail.path_join w (Thumbnail.cwd w) "thumbnails" in
  p = Thumbnail.path_join w dir
        ("thumbnail-" +:+ pretty (Thumbnail.now w) +:+ ".png") ∧
  head tr = Some (Thumbnail.CreateCanvas 1280 720) ∧
  List.filter touches_disk tr = [Thumbnail.Mkdir dir true; Thumbnail.WriteFile p].
Proof.
  unfold Thumbnail.generateThumbnail.
  generalize (Thumbnail.applyStyleEffects
                (default_to (VStr "vlog") (Thumbnail.style a))).
  generalize (Thumbnail.addStyledText (Thumbnail.title a)
                (default_to (VStr "vlog") (Thumbnail.style a))).
  intros tx fx.
  unfold Thumbnail.try_catch, mbind, Thumbnail.Run_bind, Thumbnail.emit,
    Thumbnail.await, mret, Thumbnail.Run_ret.
  destruct (truthy (Thumbnail.imageUrl a));
    [destruct (Thumbnail.loadImage w (Thumbnail.imageUrl a)) as [[]|e]|].
  all: repeat case_match; simplify_eq; intros [= <- <-].
  all: split; [reflexivity|]; split; [reflexivity|].
  all: cbn [List.filter touches_disk];
    rewrite !List.filter_app, !drawing_leaves_the_disk; reflexivity.
Qed.

Lemma X13_returns_the_file_written_witness :
  Thumbnail.generateThumbnail studio news_args =
    ((Thumbnail.generateThumbnail studio news_args).1,
     Ok "/srv/thumbnails/thumbnail-1700000000000.png") ∧
  List.filter touches_disk (Thumbnail.generateThumbnail studio news_args).1 =
    [Thumbnail.Mkdir "/srv/thumbnails" true;
     Thumbnail.WriteFile "/srv/thumbnails/thumbnail-1700000000000.png"].
Proof.
  split; [reflexivity|].
  apply (X13_returns_the_file_written studio news_args _
           "/srv/thumbnails/thumbnail-1700000000000.png").
  reflexivity.
Defined.

(** X14. When the background image cannot be loaded the call fails
    before anything is drawn or written. An [Error] comes out wrapped
    with its message; a rejection that is no [Error] and has no
    [message] loses its reason, the message reading
    [Failed to generate thumbnail: undefined]. *)
Theorem X14_image_failure (w : Thumbnail.world) (a : Thumbnail.GenerateParams) :
  truthy (Thumbnail.imageUrl a) = true →
  (∀ m, Thumbnail.loadImage w (Thumbnail.imageUrl a) = Throw (JsError m) →
     Thumbnail.generateThumbnail w a =
       ([Thumbnail.CreateCanvas 1280 720; Thumbnail.GetContext "2d";
         Thumbnail.LoadImage (Thumbnail.imageUrl a)],
        Throw (JsError ("Failed to generate thumbnail: " +:+ m)))) ∧
  (∀ v, Thumbnail.loadImage w (Thumbnail.imageUrl a) = Throw (JsThrown v) →
     nullish v = false → member v "message" = VUndefined →
     Thumbnail.generateThumbnail w a =
       ([Thumbnail.CreateCanvas 1280 720; Thumbnail.GetContext "2d";
         Thumbnail.LoadImage (Thumbnail.imageUrl a)],
        Throw (JsError "Failed to generate thumbnail: undefined"))).
Proof.
  intros Hurl. split.
  - intros m Hm. unfold Thumbnail.generateThumbnail.
    rewrite Hurl.
    unfold Thumbnail.try_catch, mbind, Thumbnail.Run_bind, Thumbnail.emit,
      Thumbnail.await.
    rewrite Hm. reflexivity.
  - intros v Hv Hn Hmsg. unfold Thumbnail.generateThumbnail.
    rewrite Hurl.
    unfold Thumbnail.try_catch, mbind, Thumbnail.Run_bind, Thumbnail.emit,
      Thumbnail.await.
    rewrite Hv. unfold Thumbnail.message_of, get_prop. rewrite Hn, Hmsg.
    reflexivity.
Qed.

Lemma X14_image_failure_witness :
  truthy (Thumbnail.imageUrl news_args) = true ∧
  Thumbnail.generateThumbnail studio_offline news_args =
    ([Thumbnail.CreateCanvas 1280 720; Thumbnail.GetContext "2d";
      Thumbnail.LoadImage (VStr "https://example.org/bg.png")],
     Throw (JsError "Failed to generate thumbnail: ENOTFOUND")).
Proof.
  split; [reflexivity|].
  apply (proj1 (X14_image_failure studio_offline news_args eq_refl) "ENOTFOUND").
  reflexivity.
Defined.


(** ** [parseDuration] *)

Section Decimal.
Import Playlist.

Lemma all_digits_app_digits (s t : string) :
  all_digits (s +:+ t) = all_digits s && all_digits t.
Proof.
  induction s as [|c s IH]; simpl; [reflexivity|].
  rewrite IH. apply andb_assoc.
Qed.

Lemma pretty_N_char_digit (y : N) :
  is_digit (pretty_N_char y) = true ∧
  ((y < 10)%N → digit_value (pretty_N_char y) = Z.of_N y).
Proof.
  destruct y as [|p]; [split; reflexivity|].
  do 4 (try destruct p as [p|p|]); split; try reflexivity; intros; lia.
Qed.

(** [pretty_N_go x s] puts digits before [s]. *)
Lemma pretty_N_go_digits (x : N) (s : string) :
  ∃ d, pretty_N_go x s = d +:+ s ∧ all_digits d = true ∧
       ((0 < x)%N → d ≠ "").
Proof.
  revert s. induction (N.lt_wf_0 x) as [x _ IH]; intros s.
  destruct (decide (0 < x)%N) as [Hx|Hx].
  - rewrite pretty_N_go_step by exact Hx.
    destruct (IH (x `div` 10)%N (N.div_lt x 10 Hx eq_refl)
                 (String (pretty_N_char (x `mod` 10)) s)) as [d [Hd [Hall _]]].
    exists (d +:+ String (pretty_N_char (x `mod` 10)) "").
    rewrite Hd, string_app_assoc. split; [reflexivity|]. split.
    + rewrite all_digits_app_digits, Hall. simpl.
      rewrite (proj1 (pretty_N_char_digit _)). reflexivity.
    + intros _. destruct d; discriminate.
  - assert (x = 0%N) as -> by lia. rewrite pretty_N_go_0.
    exists "". split; [reflexivity|]. split; [reflexivity | lia].
Qed.
Lemma pretty_N_go_app (x : N) (s : string) :
  pretty_N_go x s = pretty_N_go x "" +:+ s.
Proof.
  revert s. induction (N.lt_wf_0 x) as [x _ IH]; intros s.
  destruct (decide (0 < x)%N) as [Hx|Hx].
  - rewrite !(pretty_N_go_step x) by exact Hx.
    rewrite (IH (x `div` 10)%N (N.div_lt x 10 Hx eq_refl)
               (String (pretty_N_char (x `mod` 10)) s)).
    rewrite (IH (x `div` 10)%N (N.div_lt x 10 Hx eq_refl)
               (String (pretty_N_char (x `mod` 10)) "")).
    rewrite string_app_assoc. reflexivity.
  - assert (x = 0%N) as -> by lia. rewrite !pretty_N_go_0. reflexivity.
Qed.

Lemma pretty_N_app (x : N) (s : string) :
  pretty x +:+ s = if decide (x = 0%N) then "0" +:+ s else pretty_N_go x s.
Proof.
  unfold pretty, pretty_N. destruct (decide (x = 0%N)); [reflexivity|].
  symmetry. apply pretty_N_go_app.
Qed.

(** The decimal text of a number is a non-empty run of digits. *)
Lemma pretty_N_all_digits (x : N) :
  all_digits (pretty x) = true ∧ ∃ c d, pretty x = String c d.
Proof.
  unfold pretty, pretty_N. destruct (decide (x = 0%N)) as [->|Hx].
  - split; [reflexivity | eauto].
  - destruct (pretty_N_go_digits x "") as [d [Hd [Hall Hne]]].
    rewrite string_app_empty in Hd. rewrite Hd. split; [exact Hall|].
    destruct d as [|c d]; [exfalso; apply Hne; [lia | reflexivity] | eauto].
Qed.

Lemma parseInt_from_go (x : N) (s : string) :
  parseInt_from 0 (pretty_N_go x s) = parseInt_from (Z.of_N x) s.
Proof.
  revert s. induction (N.lt_wf_0 x) as [x _ IH]; intros s.
  destruct (decide (0 < x)%N) as [Hx|Hx].
  - rewrite pretty_N_go_step by exact Hx.
    rewrite (IH (x `div` 10)%N (N.div_lt x 10 Hx eq_refl)).
    simpl.
    destruct (pretty_N_char_digit (x `mod` 10)%N) as [-> Hv].
    rewrite Hv by (apply N.mod_lt; lia).
    f_equal. rewrite (N.div_mod x 10) at 3 by lia. lia.
  - assert (x = 0%N) as -> by lia. rewrite pretty_N_go_0. reflexivity.
Qed.

Lemma parseInt_from_pretty (x : N) (s : string) :
  parseInt_from 0 (pretty x +:+ s) = parseInt_from (Z.of_N x) s.
Proof.
  rewrite pretty_N_app. destruct (decide (x = 0%N)) as [->|Hx].
  - reflexivity.
  - apply parseInt_from_go.
Qed.

Lemma digits_app (d rest : string) :
  all_digits d = true → no_digit_ahead rest = true →
  digits (d +:+ rest) = (d, rest).
Proof.
  intros Hd Hr. induction d as [|c d IH].
  - destruct rest as [|c rest]; [reflexivity|].
    simpl in Hr |- *. apply negb_true_iff in Hr. rewrite Hr. reflexivity.
  - simpl in Hd. apply andb_true_iff in Hd as [Hc Hd].
    change (String c d +:+ rest) with (String c (d +:+ rest)).
    simpl. rewrite Hc, (IH Hd). reflexivity.
Qed.

(** A group of the pattern on the decimal text of a number: it takes
    part when its own letter follows, and not when another does. *)
Lemma group_hit (u : Ascii.ascii) (x : N) (rest : string) :
  is_digit u = false →
  group u (pretty x +:+ String u rest) = (Some (pretty x +:+ String u ""), rest).
Proof.
  intros Hu. unfold group.
  destruct (pretty_N_all_digits x) as [Hall [c [d Hcd]]].
  rewrite (digits_app (pretty x) (String u rest) Hall)
    by (simpl; rewrite Hu; reflexivity).
  rewrite Hcd, Ascii.eqb_refl. reflexivity.
Qed.

Lemma group_miss (u u' : Ascii.ascii) (x : N) (rest : string) :
  is_digit u' = false → Ascii.eqb u' u = false →
  group u (pretty x +:+ String u' rest) = (None, pretty x +:+ String u' rest).
Proof.
  intros Hu Hne. unfold group.
  destruct (pretty_N_all_digits x) as [Hall [c [d Hcd]]].
  rewrite (digits_app (pretty x) (String u' rest) Hall)
    by (simpl; rewrite Hu; reflexivity).
  rewrite Hcd, Hne. reflexivity.
Qed.

Lemma add_group_hit (u : Ascii.ascii) (x : N) (factor a : Z) :
  is_digit u = false →
  add_group (Some (pretty x +:+ String u "")) factor (Int a) =
  Int (a + Z.of_N x * factor).
Proof.
  intros Hu. unfold add_group, parseInt.
  rewrite parseInt_from_pretty.
  destruct (pretty_N_all_digits x) as [Hall [c [d Hcd]]].
  rewrite Hcd in Hall |- *. simpl in Hall.
  apply andb_true_iff in Hall as [Hc _].
  change (String c d +:+ String u "") with (String c (d +:+ String u "")).
  cbn [truthy String.eqb negb]. rewrite Hc.
  simpl. rewrite Hu. reflexivity.
Qed.
End Decimal.

Lemma after_PT_found (s rest : string) :
  TestScript.literal "PT" s = Some rest → Playlist.after_PT s = Some rest.
Proof.
  intros H. destruct s as [|c s]; [discriminate H|].
  cbn [Playlist.after_PT]. rewrite H. reflexivity.
Qed.

Lemma iso_part_some (x : N) (u : Ascii.ascii) (rest : string) :
  iso_part (Some x) (String u "") +:+ rest = pretty x +:+ String u rest.
Proof. unfold iso_part. apply string_app_assoc. Qed.

(** X15. [parseDuration] inverts the writing of a time-only ISO 8601
    duration: for hours, minutes and seconds, each given or left out,
    and together within the safe integers, the text [PT<h>H<m>M<s>S]
    parses to 3600 h + 60 m + s. *)
Theorem X15_parseDuration_of_iso (h m s : option N) :
  (3600 * Z.of_N (default 0%N h) + 60 * Z.of_N (default 0%N m)
   + Z.of_N (default 0%N s) ≤ MAX_SAFE_INTEGER)%Z →
  Playlist.parseDuration (VStr (iso_duration h m s)) =
  Ok (Int (3600 * Z.of_N (default 0%N h) + 60 * Z.of_N (default 0%N m)
           + Z.of_N (default 0%N s))).
Proof.
  intros _.
  unfold Playlist.parseDuration, Playlist.match_duration, iso_duration.
  rewrite (after_PT_found _ _ (literal_complete "PT" _)).
  destruct h as [h|], m as [m|], s as [s|];
    rewrite ?iso_part_some; unfold iso_part; rewrite ?string_app_empty;
    repeat (progress change ("" +:+ ?t) with t);
    repeat first
      [ rewrite group_hit by reflexivity
      | rewrite group_miss by reflexivity ];
    cbn [Playlist.group Playlist.digits];
    repeat first
      [ rewrite add_group_hit by reflexivity
      | progress change (Playlist.add_group None ?f ?x) with x ];
    unfold default, id; apply (f_equal Ok), (f_equal Int); lia.
Qed.

Lemma X15_parseDuration_of_iso_witness :
  (3600 * Z.of_N 1 + 60 * Z.of_N 0 + Z.of_N 30 ≤ MAX_SAFE_INTEGER)%Z ∧
  Playlist.parseDuration (VStr "PT1H30S") = Ok (Int 3630).
Proof.
  split; [vm_compute; discriminate|].
  apply (X15_parseDuration_of_iso (Some 1%N) None (Some 30%N)).
  vm_compute. discriminate.
Defined.

Lemma parseDuration_examples :
  Playlist.parseDuration (VStr "PT1H2M3S") = Ok (Int 3723) ∧
  Playlist.parseDuration (VStr "PT15M") = Ok (Int 900) ∧
  Playlist.parseDuration (VStr "PT1H30S") = Ok (Int 3630) ∧
  Playlist.parseDuration (VStr "PT") = Ok (Int 0).
Proof. repeat split; reflexivity. Qed.

Lemma no_P_app (s t : string) : no_P (s +:+ t) = no_P s && no_P t.
Proof.
  induction s as [|c s IH]; simpl; [reflexivity|].
  rewrite IH. apply andb_assoc.
Qed.

Lemma all_digits_no_P (d : string) : all_digits d = true → no_P d = true.
Proof.
  induction d as [|c d IH]; [reflexivity|].
  cbn [all_digits no_P]. intros H. apply andb_true_iff in H as [Hc Hd].
  rewrite (IH Hd), andb_true_r.
  destruct (Ascii.eqb (Ascii.ascii_of_nat 80) c) eqn:E; [|reflexivity].
  apply Ascii.eqb_eq in E as <-. discriminate Hc.
Qed.

Lemma literal_PT_other (c : Ascii.ascii) (s : string) :
  Ascii.eqb (Ascii.ascii_of_nat 80) c = false →
  TestScript.literal "PT" (String c s) = None.
Proof.
  intros Hc. cbn [TestScript.literal].
  destruct (Ascii.eqb _ c) eqn:E; [|reflexivity].
  apply Ascii.eqb_eq in E as <-. discriminate Hc.
Qed.

Lemma after_PT_no_P (s : string) : no_P s = true → Playlist.after_PT s = None.
Proof.
  induction s as [|c s IH]; [reflexivity|].
  cbn [no_P]. intros H. apply andb_true_iff in H as [Hc Hs].
  apply negb_true_iff in Hc.
  cbn [Playlist.after_PT]. rewrite (literal_PT_other c s Hc). exact (IH Hs).
Qed.

(** X16. A duration with a day part, as the upstream API writes the
    length of a video of a day or more ([P1DT2H3M4S]), holds no [PT]:
    the pattern does not match and [parseDuration] throws the
    [TypeError] of reading [match[1]] from [null]. *)
Theorem X16_parseDuration_with_days (d : N) (rest : string) :
  no_P rest = true →
  Playlist.parseDuration (VStr ("P" +:+ pretty d +:+ "DT" +:+ rest)) =
  Throw (JsError "Cannot read properties of null (reading '1')").
Proof.
  intros Hrest. unfold Playlist.parseDuration, Playlist.match_duration.
  destruct (pretty_N_all_digits d) as [Hall [c [ds Hcd]]].
  assert (Playlist.after_PT ("P" +:+ pretty d +:+ "DT" +:+ rest) = None) as ->;
    [|reflexivity].
  assert (no_P (pretty d +:+ "DT" +:+ rest) = true) as Htail.
  { rewrite !no_P_app, (all_digits_no_P _ Hall), Hrest. reflexivity. }
  change ("P" +:+ ?t) with (String (Ascii.ascii_of_nat 80) t).
  cbn [Playlist.after_PT].
  assert (TestScript.literal "PT"
            (String (Ascii.ascii_of_nat 80) (pretty d +:+ "DT" +:+ rest)) = None)
    as ->.
  { rewrite Hcd in Hall |- *. cbn [all_digits] in Hall.
    apply andb_true_iff in Hall as [Hc _].
    change (String c ds +:+ ?t) with (String c (ds +:+ t)).
    cbn [TestScript.literal]. rewrite Ascii.eqb_refl.
    destruct (Ascii.eqb _ c) eqn:E; [|reflexivity].
    apply Ascii.eqb_eq in E as <-. discriminate Hc. }
  apply after_PT_no_P, Htail.
Qed.

Lemma X16_parseDuration_with_days_witness :
  no_P "2H3M4S" = true ∧
  Playlist.parseDuration (VStr "P1DT2H3M4S") =
  Throw (JsError "Cannot read properties of null (reading '1')").
Proof.
  split; [reflexivity|].
  apply (X16_parseDuration_with_days 1 "2H3M4S"). reflexivity.
Defined.

(** ** [selectVideosForDuration] *)

Section Selection.
Import Playlist.

Lemma digit_value_nonneg (c : Ascii.ascii) :
  is_digit c = true → (0 ≤ digit_value c)%Z.
Proof.
  unfold is_digit, digit_value. intros H.
  apply andb_true_iff in H as [H _]. apply Nat.leb_le in H. lia.
Qed.

Lemma parseInt_from_nonneg (s : string) (acc : Z) :
  (0 ≤ acc)%Z → (0 ≤ parseInt_from acc s)%Z.
Proof.
  revert acc. induction s as [|c s IH]; intros acc Hacc; [exact Hacc|].
  cbn [parseInt_from]. destruct (is_digit c) eqn:Hc; [|exact Hacc].
  apply IH. pose proof (digit_value_nonneg c Hc). lia.
Qed.

Lemma digits_head (s d rest : string) (c : Ascii.ascii) :
  digits s = (String c d, rest) → is_digit c = true.
Proof.
  destruct s as [|c' s]; [discriminate|].
  cbn [digits]. destruct (is_digit c') eqn:Hc; [|discriminate].
  destruct (digits s) as [d' rest']. intros [= <- _ _]. exact Hc.
Qed.

(** The text of a group that takes part starts with a digit. *)
Lemma group_text (u : Ascii.ascii) (s rest : string) (g : option string) :
  group u s = (g, rest) →
  g = None ∨ ∃ c d, g = Some (String c d) ∧ is_digit c = true.
Proof.
  unfold group. destruct (digits s) as [[|c d] [|u' rest']] eqn:Hd;
    try (intros [= <- _]; left; reflexivity).
  destruct (Ascii.eqb u' u); intros [= <- _]; [|left; reflexivity].
  right. exists c, (d +:+ String u ""). split; [reflexivity|].
  exact (digits_head _ _ _ _ Hd).
Qed.

Lemma add_group_nonneg (g : option string) (factor a : Z) :
  g = None ∨ (∃ c d, g = Some (String c d) ∧ is_digit c = true) →
  (0 ≤ factor)%Z → (0 ≤ a)%Z →
  ∃ b, add_group g factor (Int a) = Int b ∧ (0 ≤ b)%Z.
Proof.
  intros [-> | [c [d [-> Hc]]]] Hf Ha.
  - exists a. split; [reflexivity | exact Ha].
  - unfold add_group, parseInt. cbn [truthy String.eqb negb]. rewrite Hc.
    eexists. split; [reflexivity|].
    pose proof (parseInt_from_nonneg (String c d) 0 (Z.le_refl 0)). nia.
Qed.

(** What [parseDuration] returns is a number of seconds, not negative
    and not [NaN]. *)
Lemma parseDuration_nonneg (v : value) (n : number) :
  parseDuration v = Ok n → ∃ z, n = Int z ∧ (0 ≤ z)%Z.
Proof.
  unfold parseDuration. destruct v as [| | | |s| |]; try discriminate.
  unfold match_duration. destruct (after_PT s) as [rest|]; [|discriminate].
  destruct (group (Ascii.ascii_of_nat 72) rest) as [g1 r1] eqn:H1.
  destruct (group (Ascii.ascii_of_nat 77) r1) as [g2 r2] eqn:H2.
  destruct (group (Ascii.ascii_of_nat 83) r2) as [g3 r3] eqn:H3.
  apply group_text in H1, H2, H3.
  destruct (add_group_nonneg g1 3600 0 H1) as [a [E1 Ha]]; [lia | lia |].
  destruct (add_group_nonneg g2 60 a H2) as [b [E2 Hb]]; [lia | exact Ha |].
  destruct (add_group_nonneg g3 1 b H3) as [c [E3 Hc]]; [lia | exact Hb |].
  intros [= <-]. rewrite E1, E2, E3. eauto.
Qed.

Lemma video_seconds_nonneg (video : value) (n : number) :
  video_seconds video = Ok n → ∃ z, n = Int z ∧ (0 ≤ z)%Z.
Proof.
  unfold video_seconds.
  destruct (get_prop video "contentDetails") as [cd|]; [|discriminate].
  cbn [mbind result_bind].
  destruct (get_prop cd "duration") as [d|]; [|discriminate].
  apply parseDuration_nonneg.
Qed.

(** One turn of the loop, by the seconds of the video. *)
Lemma select_loop_step (video : value) (rest : list value) (t : number)
    (selected : list value) (c : number) :
  select_loop (video :: rest) t selected c =
  match video_seconds video with
  | Ok duration =>
      if num_le (num_add c duration) t
      then select_loop rest t (selected ++ [video]) (num_add c duration)
      else select_loop rest t selected c
  | Throw e => Throw e
  end.
Proof.
  cbn [select_loop]. unfold video_seconds.
  destruct (get_prop video "contentDetails") as [cd|]; [|reflexivity].
  cbn [mbind result_bind].
  destruct (get_prop cd "duration") as [d|]; [|reflexivity].
  destruct (parseDuration d); reflexivity.
Qed.

Lemma select_loop_spec (videos : list value) (t c : Z)
    (sel0 sel : list value) :
  select_loop videos (Int t) sel0 (Int c) = Ok sel →
  (c ≤ t)%Z →
  ∃ picked secs,
    sel = sel0 ++ picked ∧
    picked `sublist_of` videos ∧
    mapM video_seconds picked = Ok (Int <$> secs) ∧
    Forall (λ z, 0 ≤ z)%Z secs ∧
    (c + total secs ≤ t)%Z.
Proof.
  revert c sel0. induction videos as [|video rest IH]; intros c sel0.
  - intros [= <-] Hc. exists [], []. rewrite app_nil_r.
    repeat split; [constructor | constructor | simpl; lia].
  - rewrite select_loop_step.
    destruct (video_seconds video) as [n|] eqn:Hv; [|discriminate].
    destruct (video_seconds_nonneg video n Hv) as [z [-> Hz]].
    cbn [num_add num_le]. destruct (c + z <=? t)%Z eqn:Hfit.
    + intros H Hc. apply Z.leb_le in Hfit.
      destruct (IH _ _ H Hfit) as [picked [secs [-> [Hsub [Hm [Hall Hsum]]]]]].
      exists (video :: picked), (z :: secs).
      rewrite <- app_assoc. split; [reflexivity|].
      split; [constructor; exact Hsub|]. split.
      * simpl. rewrite Hv. simpl.
        change (mapM video_seconds picked) with (mapM video_seconds picked).
        rewrite Hm. reflexivity.
      * split; [constructor; assumption|]. simpl. lia.
    + intros H Hc.
      destruct (IH _ _ H Hc) as [picked [secs [-> [Hsub [Hm [Hall Hsum]]]]]].
      exists picked, secs. split; [reflexivity|].
      split; [constructor; exact Hsub|]. repeat split; assumption.
Qed.
End Selection.


Lemma mapM_video_seconds_cons (video : value) (rest : list value)
    (secs : list Z) :
  mapM video_seconds (video :: rest) = Ok (Int <$> secs) →
  ∃ z secs', secs = z :: secs' ∧ (0 ≤ z)%Z ∧
    video_seconds video = Ok (Int z) ∧
    mapM video_seconds rest = Ok (Int <$> secs').
Proof.
  simpl. destruct (video_seconds video) as [n|] eqn:Hv; [|discriminate].
  simpl. destruct (mapM video_seconds rest) as [ns|] eqn:Hr; [|discriminate].
  simpl. destruct (video_seconds_nonneg video n Hv) as [z [-> Hz]].
  destruct secs as [|z' secs']; [discriminate|].
  intros [= -> ->]. exists z', secs'. repeat split; assumption.
Qed.

Lemma total_nonneg (secs : list Z) (videos : list value) :
  mapM video_seconds videos = Ok (Int <$> secs) → (0 ≤ total secs)%Z.
Proof.
  revert secs. induction videos as [|video rest IH]; intros secs H.
  - destruct secs; [simpl; lia | discriminate].
  - apply mapM_video_seconds_cons in H as [z [secs' [-> [Hz [_ Hr]]]]].
    specialize (IH secs' Hr). unfold total in *. simpl. lia.
Qed.

Lemma select_loop_all (videos : list value) (secs : list Z) (t c : Z)
    (sel0 : list value) :
  mapM video_seconds videos = Ok (Int <$> secs) →
  (c + total secs ≤ t)%Z →
  Playlist.select_loop videos (Int t) sel0 (Int c) = Ok (sel0 ++ videos).
Proof.
  revert secs c sel0. induction videos as [|video rest IH]; intros secs c sel0 H Hsum.
  - rewrite app_nil_r. reflexivity.
  - apply mapM_video_seconds_cons in H as [z [secs' [-> [Hz [Hv Hr]]]]].
    pose proof (total_nonneg secs' rest Hr) as Hpos.
    rewrite select_loop_step, Hv. cbn [Playlist.num_add Playlist.num_le].
    unfold total in *. simpl in Hsum.
    assert ((c + z <=? t)%Z = true) as -> by (apply Z.leb_le; lia).
    rewrite (IH secs' (c + z)%Z (sel0 ++ [video]) Hr) by (unfold total; lia).
    rewrite <- app_assoc. reflexivity.
Qed.

(** X18. When all the videos together fit the target, and the target
    is a safe integer, all of them are selected, in their order. *)
Theorem X18_selection_takes_all_that_fit (videos : list value)
    (secs : list Z) (t : Z) :
  mapM video_seconds videos = Ok (Int <$> secs) →
  (total secs ≤ t)%Z →
  (t ≤ MAX_SAFE_INTEGER)%Z →
  Playlist.selectVideosForDuration videos (Int t) = Ok videos.
Proof.
  intros H Hsum _. unfold Playlist.selectVideosForDuration.
  rewrite (select_loop_all videos secs t 0 [] H) by lia. reflexivity.
Qed.

Lemma X18_selection_takes_all_that_fit_witness :
  mapM video_seconds three_videos = Ok (Int <$> [50; 100; 10]%Z) ∧
  (total [50; 100; 10] ≤ 160)%Z ∧
  (160 ≤ MAX_SAFE_INTEGER)%Z ∧
  Playlist.selectVideosForDuration three_videos (Int 160) = Ok three_videos.
Proof.
  split; [reflexivity|]. split; [vm_compute; discriminate|].
  split; [vm_compute; discriminate|].
  apply (X18_selection_takes_all_that_fit three_videos [50; 100; 10]%Z 160);
    [reflexivity | vm_compute; discriminate | vm_compute; discriminate].
Defined.

Lemma select_loop_returns (videos : list value) (secs : list Z)
    (t : number) (sel0 : list value) (c : number) :
  mapM video_seconds videos = Ok (Int <$> secs) →
  ∃ sel, Playlist.select_loop videos t sel0 c = Ok sel.
Proof.
  revert secs sel0 c. induction videos as [|video rest IH]; intros secs sel0 c H.
  - exists sel0. reflexivity.
  - apply mapM_video_seconds_cons in H as [z [secs' [-> [_ [Hv Hr]]]]].
    rewrite select_loop_step, Hv.
    destruct (Playlist.num_le _ t); apply (IH secs'); exact Hr.
Qed.

(** X17. For videos whose durations are readable and together within
    the safe integers, and a target that is a safe integer and not
    negative, [selectVideosForDuration] returns a sub-sequence of the
    videos, in their order, whose durations add up to no more than the
    target. *)
Theorem X17_selection_fits (videos : list value) (all : list Z) (t : Z) :
  mapM video_seconds videos = Ok (Int <$> all) →
  (total all ≤ MAX_SAFE_INTEGER)%Z →
  (0 ≤ t ≤ MAX_SAFE_INTEGER)%Z →
  ∃ sel secs,
    Playlist.selectVideosForDuration videos (Int t) = Ok sel ∧
    sel `sublist_of` videos ∧
    mapM video_seconds sel = Ok (Int <$> secs) ∧
    Forall (λ z, 0 ≤ z)%Z secs ∧
    (total secs ≤ t)%Z.
Proof.
  intros Hall _ [Ht _].
  destruct (select_loop_returns videos all (Int t) [] (Int 0) Hall) as [sel H].
  destruct (select_loop_spec videos t 0 [] sel H Ht)
    as [picked [secs [-> [Hsub [Hm [Hpos Hsum]]]]]].
  exists picked, secs. split; [exact H|]. split; [exact Hsub|].
  split; [exact Hm|]. split; [exact Hpos | lia].
Qed.

Lemma X17_selection_fits_witness :
  mapM video_seconds three_videos = Ok (Int <$> [50; 100; 10]%Z) ∧
  (total [50; 100; 10] ≤ MAX_SAFE_INTEGER)%Z ∧
  (0 ≤ 60 ≤ MAX_SAFE_INTEGER)%Z ∧
  Playlist.selectVideosForDuration three_videos (Int 60) =
    Ok [video "a" "PT50S"; video "c" "PT10S"] ∧
  ∃ sel secs,
    Playlist.selectVideosForDuration three_videos (Int 60) = Ok sel ∧
    sel `sublist_of` three_videos ∧
    mapM video_seconds sel = Ok (Int <$> secs) ∧
    Forall (λ z, 0 ≤ z)%Z secs ∧
    (total secs ≤ 60)%Z.
Proof.
  assert (total [50; 100; 10] ≤ MAX_SAFE_INTEGER)%Z as H1
    by (vm_compute; discriminate).
  assert (0 ≤ 60 ≤ MAX_SAFE_INTEGER)%Z as H2
    by (split; vm_compute; discriminate).
  split; [reflexivity|]. split; [exact H1|]. split; [exact H2|].
  split; [reflexivity|].
  exact (X17_selection_fits three_videos [50; 100; 10]%Z 60 eq_refl H1 H2).
Defined.

Lemma select_loop_unreadable (xs ys : list value) (r : value) (secs : list Z)
    (t : number) (sel0 : list value) (c : number) (e : thrown) :
  mapM video_seconds xs = Ok (Int <$> secs) →
  video_seconds r = Throw e →
  Playlist.select_loop (xs ++ r :: ys) t sel0 c = Throw e.
Proof.
  revert secs sel0 c. induction xs as [|x xs IH]; intros secs sel0 c Hxs Hr.
  - simpl app. rewrite select_loop_step, Hr. reflexivity.
  - apply mapM_video_seconds_cons in Hxs as [z [secs' [-> [_ [Hv Hrest]]]]].
    change ((x :: xs) ++ r :: ys) with (x :: (xs ++ r :: ys)).
    rewrite select_loop_step, Hv.
    destruct (Playlist.num_le _ t); apply (IH secs'); assumption.
Qed.

(** X19. [processVideos] puts [items[0]] of each lookup in the list, so
    a video that the API does not return stands there as [undefined].
    [selectVideosForDuration] does not skip it: after any readable
    videos, a [null] or [undefined] entry makes the selection throw the
    [TypeError] of reading [contentDetails] from it. *)
Theorem X19_selection_unreadable_video (xs ys : list value) (r : value)
    (secs : list Z) (t : number) :
  mapM video_seconds xs = Ok (Int <$> secs) →
  nullish r →
  Playlist.selectVideosForDuration (xs ++ r :: ys) t =
  Throw (TypeError_read r "contentDetails").
Proof.
  intros Hxs Hr. apply Is_true_true in Hr.
  apply (select_loop_unreadable xs ys r secs t [] (Int 0) _ Hxs).
  unfold video_seconds, get_prop. rewrite Hr. reflexivity.
Qed.

Lemma X19_selection_unreadable_video_witness :
  mapM video_seconds [video "a" "PT50S"] = Ok (Int <$> [50%Z]) ∧
  Playlist.selectVideosForDuration
    ([video "a" "PT50S"] ++ VUndefined :: [video "c" "PT10S"]) (Int 60) =
  Throw (JsError "Cannot read properties of undefined (reading 'contentDetails')").
Proof.
  split; [reflexivity|].
  apply (X19_selection_unreadable_video [video "a" "PT50S"]
           [video "c" "PT10S"] VUndefined [50%Z] (Int 60));
    [reflexivity | exact I].
Defined.
